(** * otcs.py: a looping playlist player, embedded and verified

    The development follows the layout of [src/otcs.py]:

    - [Py]: the fragments of Python's [str], [list], [os.path] and
      [itertools] that the script relies on, written out as functions;
    - [Loader]: the playlist normalisation of the [__main__] block;
    - [Sys]: the configuration constants, what a turn observes of the
      outside, the files and console it acts on, and the monad that
      threads them;
    - [Gate]: [check_file], the retry loop in front of every playback;
    - [History]: the read-modify-write of [play_history.txt];
    - [Schedule]: [write_schedule];
    - [Coordinator]: [loop], one turn over the persisted cursor, and the
      slice it hands to [write_schedule];
    - [Sample]: the shipped configuration and small inputs.

    The properties come after the definitions, component by component.

    Python [str] values are [string]s whose characters are the code points
    below 256; Python [int]s are [Z]; a polling loop that may go on for
    ever takes fuel and reports [Pending] when it is spent. *)

From Stdlib Require Import Bool Arith ZArith Lia List Ascii String.
From Stdlib Require Import Numbers.DecimalString Sorted.
Import ListNotations.

Local Open Scope list_scope.
Local Open Scope string_scope.

(* ================================================================== *)
(** * Python primitives *)

Module Py.

(** ** Exceptions and outcomes *)

Inductive exn : Type :=
| FileNotFoundError (path : string)
| ValueError
| IndexError
| UnboundLocalError
| Exception (msg : string).

(** ** Characters and strings *)

Definition LF : ascii := "010"%char.
Definition VT : ascii := "011"%char.
Definition FF : ascii := "012"%char.
Definition CR : ascii := "013"%char.
Definition FS : ascii := "028"%char.
Definition GS : ascii := "029"%char.
Definition RS : ascii := "030"%char.
Definition NEL : ascii := "133"%char.
Definition backslash : ascii := "092"%char.
Definition slash : ascii := "/"%char.
Definition quote : ascii := "'"%char.
Definition dquote : ascii := "034"%char.
Definition dot : ascii := "."%char.

Definition chr (c : ascii) : string := String c EmptyString.

(** [s.startswith(p)] *)
Definition startswith (s p : string) : bool := String.prefix p s.

(** [s.endswith(p)] for a one-character [p]. *)
Fixpoint endswith_char (s : string) (c : ascii) : bool :=
  match s with
  | EmptyString => false
  | String a EmptyString => Ascii.eqb a c
  | String _ s' => endswith_char s' c
  end.

(** The line boundaries of [str.splitlines] among the code points below
    256. *)
Definition is_linebreak (c : ascii) : bool :=
  Ascii.eqb c LF || Ascii.eqb c CR || Ascii.eqb c VT || Ascii.eqb c FF
  || Ascii.eqb c FS || Ascii.eqb c GS || Ascii.eqb c RS || Ascii.eqb c NEL.

(** A text that holds none of the line boundaries. *)
Fixpoint one_line (s : string) : bool :=
  match s with
  | EmptyString => true
  | String c s' => negb (is_linebreak c) && one_line s'
  end.

(** [str.splitlines()]: [cur] is the line being collected, [skip_lf] is
    set right after a carriage return, whose following line feed belongs
    to the same boundary. *)
Fixpoint splitlines_go (skip_lf : bool) (cur s : string) : list string :=
  match s with
  | EmptyString => match cur with EmptyString => [] | _ => [cur] end
  | String c s' =>
      if skip_lf && Ascii.eqb c LF then splitlines_go false cur s'
      else if is_linebreak c
           then cur :: splitlines_go (Ascii.eqb c CR) EmptyString s'
           else splitlines_go false (cur ++ chr c) s'
  end.

Definition splitlines (s : string) : list string :=
  splitlines_go false EmptyString s.

(** [s.replace(old, new)] for a one-character [old]. *)
Fixpoint replace_char (old : ascii) (new : string) (s : string) : string :=
  match s with
  | EmptyString => EmptyString
  | String c s' =>
      (if Ascii.eqb c old then new else chr c) ++ replace_char old new s'
  end.

(** [sep.join(l)] *)
Fixpoint join (sep : string) (l : list string) : string :=
  match l with
  | [] => EmptyString
  | [x] => x
  | x :: l' => x ++ sep ++ join sep l'
  end.

(** [c in s] for a character. *)
Fixpoint has_char (c : ascii) (s : string) : bool :=
  match s with
  | EmptyString => false
  | String a s' => Ascii.eqb a c || has_char c s'
  end.

(** [str(n)] for an [int]. *)
Definition str_int (n : Z) : string := NilZero.string_of_int (Z.to_int n).

(** ** Lists *)

Section Lists.
Context {A : Type}.

Definition len (l : list A) : Z := Z.of_nat (List.length l).

(** [l[i]]: negative indices count from the end, anything outside
    [-len, len) raises [IndexError]. *)
Definition getitem (l : list A) (i : Z) : option A :=
  if (0 <=? i)%Z then nth_error l (Z.to_nat i)
  else if (0 <=? len l + i)%Z then nth_error l (Z.to_nat (len l + i))
  else None.

(** The clamping of a slice bound. *)
Definition clamp (l : list A) (i : Z) : nat :=
  if (0 <=? i)%Z then Nat.min (Z.to_nat i) (List.length l)
  else Z.to_nat (Z.max 0 (len l + i)).

(** [l[start:]] *)
Definition slice_from (l : list A) (start : Z) : list A :=
  skipn (clamp l start) l.

(** [l[:stop]] *)
Definition slice_to (l : list A) (stop : Z) : list A :=
  firstn (clamp l stop) l.

(** [itertools.islice(itertools.cycle(saved), n)]: [cur] is what is left
    of the current pass over [saved]. An empty iterable cycles to
    nothing. *)
Fixpoint cycle_go (saved cur : list A) (n : nat) : list A :=
  match n with
  | O => []
  | S n' =>
      match cur with
      | x :: cur' => x :: cycle_go saved cur' n'
      | [] =>
          match saved with
          | [] => []
          | x :: cur' => x :: cycle_go saved cur' n'
          end
      end
  end.

Definition islice_cycle (l : list A) (n : nat) : list A := cycle_go l l n.

(** The last [n] elements of a list, all of it when it is shorter. *)
Definition last_n (n : nat) (l : list A) : list A :=
  skipn (List.length l - n) l.
End Lists.

(** ** [os.path] (the POSIX flavour: the script's paths are POSIX paths) *)

(** [os.path.join(a, b)] *)
Definition path_join (a b : string) : string :=
  if startswith b "/" then b
  else if (String.eqb a EmptyString || endswith_char a slash)%bool then a ++ b
  else a ++ "/" ++ b.

(** [p.rfind(c)] as an option: the index of the last occurrence. *)
Fixpoint rfind (c : ascii) (p : string) : option nat :=
  match p with
  | EmptyString => None
  | String a p' =>
      match rfind c p' with
      | Some i => Some (S i)
      | None => if Ascii.eqb a c then Some O else None
      end
  end.

(** The scan of [genericpath._splitext] over the leading dots of the last
    component: is there a character other than the dot in
    [p[from:upto]]? *)
Fixpoint has_non_dot (p : string) (from upto : nat) : bool :=
  match p, from, upto with
  | _, _, O => false
  | EmptyString, _, _ => false
  | String a p', O, S upto' =>
      if Ascii.eqb a dot then has_non_dot p' O upto' else true
  | String _ p', S from', S upto' => has_non_dot p' from' upto'
  end.

(** [sepIndex + 1] of [genericpath._splitext]: where the last component
    of a path begins. *)
Definition filename_index (p : string) : nat :=
  match rfind slash p with Some i => S i | None => O end.

(** [os.path.splitext(p)], from [genericpath._splitext] with separator
    [/] and no alternative separator. *)
Definition splitext (p : string) : string * string :=
  let filenameIndex := filename_index p in
  match rfind dot p with
  | Some dotIndex =>
      if (filenameIndex <=? dotIndex)%nat && has_non_dot p filenameIndex dotIndex
      then (substring 0 dotIndex p, substring dotIndex (String.length p - dotIndex) p)
      else (p, EmptyString)
  | None => (p, EmptyString)
  end.

End Py.

(* ================================================================== *)
(** * Playlist Loader: the [__main__] block *)

Module Loader.
Import Py.

(** What [MEDIA_PLAYLIST] may hold: a path to a text file (given here by
    what [read()] returns, [None] when the file is absent), a Python
    list, or anything else. *)
Inductive playlist_source : Type :=
| FromFile (path : string) (contents : option string)
| FromList (l : list string)
| Other.

(** The condition of the list comprehension of lines 264-267. *)
Definition kept (i : string) : bool :=
  negb (String.eqb i EmptyString)
  && negb (startswith i ";")
  && negb (startswith i "#")
  && negb (startswith i "//").

Definition normalize (media_playlist : list string) : list string :=
  filter kept media_playlist.

Definition load (MEDIA_PLAYLIST : playlist_source) : list string + exn :=
  match MEDIA_PLAYLIST with
  | FromFile _ (Some text) => inl (normalize (splitlines text))
  | FromFile path None => inr (FileNotFoundError path)
  | FromList l => inl (normalize l)
  | Other => inr (Exception "MEDIA_PLAYLIST is not a file or Python list.")
  end.

(** The text of a playlist file with one entry per line, each line ended
    by a line feed. *)
Fixpoint one_per_line (entries : list string) : string :=
  match entries with
  | [] => EmptyString
  | x :: entries' => x ++ String LF (one_per_line entries')
  end.

(** The contract in the words of the specification: a line is dropped
    when it is empty or begins with [;], [#] or [//]. *)
Definition dropped (line : string) : Prop :=
  line = EmptyString
  \/ (exists r, line = ";" ++ r) \/ (exists r, line = "#" ++ r)
  \/ (exists r, line = "//" ++ r).

(** [Normalizes l l'] : [l'] is [l] without its dropped lines, in the
    order of [l]. *)
Inductive Normalizes : list string -> list string -> Prop :=
| Normalizes_nil : Normalizes [] []
| Normalizes_drop x l l' : dropped x -> Normalizes l l' -> Normalizes (x :: l) l'
| Normalizes_keep x l l' :
    ~ dropped x -> Normalizes l l' -> Normalizes (x :: l) (x :: l').

End Loader.

(* ================================================================== *)
(** * Configuration, environment and the state the script acts on *)

Module Sys.
Import Py.

(** The configuration block of lines 13-57. *)
Record config : Type := Config {
  MEDIA_PLAYER_PATH : string;
  FFPROBE_PATH : string;
  MEDIA_PLAYER_BEFORE_ARGUMENTS : string;
  MEDIA_PLAYER_AFTER_ARGUMENTS : string;
  BASE_PATH : string;
  RETRY_ATTEMPTS : Z;
  RETRY_PERIOD : Z;
  PLAY_HISTORY_LENGTH : Z;
  SCHEDULE_PATH : option string;
  SCHEDULE_UPCOMING_LENGTH : Z
}.

(** What one cycle observes of the outside: the clocks, the file system
    as [os.path.isfile] sees it at its successive calls (numbered from 0
    within the cycle), the standard output of ffprobe, and the two
    library conversions the script leans on. Times are microseconds, the
    resolution of [datetime]. *)
Record env : Type := Env {
  now : string;                       (* str(datetime.datetime.now()) *)
  utcnow : Z;                         (* datetime.datetime.utcnow() *)
  str_datetime : Z -> string;         (* str() of a datetime *)
  isfile : string -> nat -> bool;     (* os.path.isfile(path), n-th call *)
  ffprobe : string -> string;         (* stdout of the probe for a path *)
  float_seconds : string -> option Z  (* timedelta(seconds=float(text)),
                                         None when the conversion raises *)
}.

(** What the script does to the outside, in order. *)
Inductive event : Type :=
| IsFile (path : string) (found : bool)
| Print (text : string)
| Sleep (seconds : Z)
| Run (command : string)
| Spawn (file_list : list string) (previous_file : string).

(** [play_index.txt]: absent, holding the text of an integer, or holding
    text that [int()] rejects. *)
Inductive slot : Type :=
| NoFile
| Holds (n : Z)
| Garbage.

(** The schedule artifact is the template with its two placeholders
    filled; it is kept as the two values substituted. *)
Record artifact : Type := Artifact {
  js_array : string;
  previous_name : string
}.

Record world : Type := World {
  play_index_txt : slot;
  play_history_txt : option string;
  schedule_html : option artifact;
  console : list event
}.

Definition emit (e : event) (w : world) : world :=
  World (play_index_txt w) (play_history_txt w) (schedule_html w)
        (console w ++ [e])%list.

Definition emits (t : list event) (w : world) : world :=
  World (play_index_txt w) (play_history_txt w) (schedule_html w)
        (console w ++ t)%list.

Definition set_index (n : Z) (w : world) : world :=
  World (Holds n) (play_history_txt w) (schedule_html w) (console w).

Definition set_history (text : string) (w : world) : world :=
  World (play_index_txt w) (Some text) (schedule_html w) (console w).

Definition set_schedule (a : artifact) (w : world) : world :=
  World (play_index_txt w) (play_history_txt w) (Some a) (console w).

(** A computation ends normally, ends with an exception, or is still
    polling when its fuel is spent. *)
Inductive outcome (A : Type) : Type :=
| Done (a : A) (w : world)
| Raised (e : exn) (w : world)
| Pending (w : world).
Arguments Done {A} a w.
Arguments Raised {A} e w.
Arguments Pending {A} w.

Definition final {A} (o : outcome A) : world :=
  match o with Done _ w | Raised _ w | Pending w => w end.

Definition M (A : Type) : Type := world -> outcome A.

Definition ret {A} (a : A) : M A := fun w => Done a w.
Definition raise {A} (e : exn) : M A := fun w => Raised e w.
Definition bind {A B} (m : M A) (k : A -> M B) : M B :=
  fun w =>
    match m w with
    | Done a w' => k a w'
    | Raised e w' => Raised e w'
    | Pending w' => Pending w'
    end.
Definition get : M world := fun w => Done w w.
Definition modify (f : world -> world) : M unit := fun w => Done tt (f w).
Definition of_option {A} (e : exn) (o : option A) : M A :=
  match o with Some a => ret a | None => raise e end.

Declare Scope py_scope.
Delimit Scope py_scope with py.
Notation "x <- m ;; k" := (bind m (fun x => k))
  (at level 61, m at next level, right associativity) : py_scope.
Notation "m ;; k" := (bind m (fun _ => k))
  (at level 61, right associativity) : py_scope.

(** The events of a console, by kind. *)
Definition checks (t : list event) : nat :=
  List.length (filter (fun e => match e with IsFile _ _ => true | _ => false end) t).

Fixpoint printed (t : list event) : list string :=
  match t with
  | [] => []
  | Print s :: t' => s :: printed t'
  | _ :: t' => printed t'
  end.

Fixpoint slept (t : list event) : list Z :=
  match t with
  | [] => []
  | Sleep d :: t' => d :: slept t'
  | _ :: t' => slept t'
  end.

Fixpoint played (t : list event) : list string :=
  match t with
  | [] => []
  | Run c :: t' => c :: played t'
  | _ :: t' => played t'
  end.

Fixpoint spawned (t : list event) : list (list string * string) :=
  match t with
  | [] => []
  | Spawn l p :: t' => (l, p) :: spawned t'
  | _ :: t' => spawned t'
  end.

Definition total (l : list Z) : Z := fold_right Z.add 0%Z l.

End Sys.

(* ================================================================== *)
(** * Availability Gate: [check_file] *)

Module Gate.
Import Py Sys.
Local Open Scope py_scope.

Section CheckFile.
Variable cfg : config.
Variable e : env.
Variable path : string.

(** The local variables of [check_file]; [retry_attempts_string] is
    bound only once one of its assignments has run. [polls] counts the
    calls to [os.path.isfile] made so far. *)
Record locals : Type := Locals {
  retry_attempts_remaining : Z;
  retry_attempts_string : option string;
  polls : nat
}.

(** The message of line 87. *)
Definition retry_message (s : string) : string :=
  "File not found: " ++ path ++ "." ++ chr LF ++ "Retrying in "
    ++ str_int (RETRY_PERIOD cfg) ++ " seconds..." ++ chr LF ++ s.

(** [time.sleep] rejects a negative length. *)
Definition sleep (d : Z) : M unit :=
  if (d <? 0)%Z then raise ValueError else modify (emit (Sleep d)).

(** Lines 76-79. *)
Definition attempts_string (r : Z) : string :=
  if (1 <? r)%Z
  then str_int r ++ " attempts remaining." ++ chr LF
  else "1 attempt remaining." ++ chr LF.

(** The body of the [while] loop after a failed check: [None] when the
    exception of line 85 is raised, the updated locals otherwise. *)
Definition countdown (l : locals) : option locals :=
  let r := retry_attempts_remaining l in
  if (0 <? r)%Z then
    Some (Locals (r - 1) (Some (attempts_string r)) (polls l))
  else if (r =? 0)%Z then None
  else Some l.

Fixpoint while_not_isfile (fuel : nat) (l : locals) : M unit :=
  match fuel with
  | O => fun w => Pending w
  | S fuel' =>
      let found := isfile e path (polls l) in
      modify (emit (IsFile path found)) ;;
      if found then ret tt
      else
        l' <- of_option (FileNotFoundError path) (countdown l) ;;
        s <- of_option UnboundLocalError (retry_attempts_string l') ;;
        modify (emit (Print (retry_message s))) ;;
        sleep (RETRY_PERIOD cfg) ;;
        while_not_isfile fuel'
          (Locals (retry_attempts_remaining l') (retry_attempts_string l')
                  (S (polls l')))
  end.

Definition check_file (fuel : nat) : M unit :=
  let retry_attempts_remaining := RETRY_ATTEMPTS cfg in
  let retry_attempts_string :=
    if (retry_attempts_remaining <? 0)%Z then Some EmptyString else None in
  while_not_isfile fuel
    (Locals retry_attempts_remaining retry_attempts_string 0).

(** What one failed attempt that is retried leaves on the console. *)
Definition failed_attempt (s : string) : list event :=
  [IsFile path false; Print (retry_message s); Sleep (RETRY_PERIOD cfg)].

(** [k] failed attempts counting down from [r]. *)
Fixpoint countdown_trace (r : Z) (k : nat) : list event :=
  match k with
  | O => []
  | S k' => (failed_attempt (attempts_string r) ++ countdown_trace (r - 1) k')%list
  end.

(** The events [check_file] can leave on the console. *)
Definition gate_event (ev : event) : Prop :=
  match ev with
  | IsFile _ _ | Print _ | Sleep _ => True
  | Run _ | Spawn _ _ => False
  end.

(** [k] failed attempts without a count. *)
Fixpoint notice_trace (s : string) (k : nat) : list event :=
  match k with
  | O => []
  | S k' => (failed_attempt s ++ notice_trace s k')%list
  end.
End CheckFile.

End Gate.

(* ================================================================== *)
(** * History Log: lines 184-197 of [loop] *)

Module History.
Import Py Sys.
Local Open Scope py_scope.

(** Reading a text file translates the line endings CR LF and CR to LF. *)
Fixpoint universal_newlines (s : string) : string :=
  match s with
  | EmptyString => EmptyString
  | String c s' =>
      if Ascii.eqb c CR then
        String LF
          match s' with
          | String c' s'' =>
              if Ascii.eqb c' LF then universal_newlines s''
              else universal_newlines s'
          | EmptyString => EmptyString
          end
      else String c (universal_newlines s')
  end.

(** The lines of a text, each with its line feed. *)
Fixpoint lines_go (cur s : string) : list string :=
  match s with
  | EmptyString => match cur with EmptyString => [] | _ => [cur] end
  | String c s' =>
      if Ascii.eqb c LF then (cur ++ chr c) :: lines_go EmptyString s'
      else lines_go (cur ++ chr c) s'
  end.

(** [f.readlines()] *)
Definition readlines (text : string) : list string :=
  lines_go EmptyString (universal_newlines text).

(** What [f.writelines(l)] leaves in a file opened with [w+]. *)
Fixpoint writelines (l : list string) : string :=
  match l with
  | [] => EmptyString
  | x :: l' => x ++ writelines l'
  end.

(** The line of line 196. *)
Definition history_line (video_time video_file : string) : string :=
  video_time ++ "," ++ video_file ++ chr LF.

(** The [try]/[except]/[finally] of lines 185-197: the file is read when it
    exists, the record appended, the last [PLAY_HISTORY_LENGTH] lines
    written over the file. *)
Definition record (cfg : config) (video_time video_file : string) : M unit :=
  if (0 <? PLAY_HISTORY_LENGTH cfg)%Z then
    w <- get ;;
    let play_history_buffer :=
      match play_history_txt w with
      | Some text => readlines text
      | None => []
      end in
    let play_history_buffer :=
      (play_history_buffer ++ [history_line video_time video_file])%list in
    modify (set_history
              (writelines (slice_from play_history_buffer
                                      (- PLAY_HISTORY_LENGTH cfg))))
  else ret tt.

(** A sequence of calls, each with its timestamp and entry. *)
Fixpoint records (cfg : config) (calls : list (string * string)) : M unit :=
  match calls with
  | [] => ret tt
  | (video_time, video_file) :: calls' =>
      record cfg video_time video_file ;; records cfg calls'
  end.

(** The persisted log as [readlines] sees it. *)
Definition log_lines (w : world) : list string :=
  match play_history_txt w with
  | Some text => readlines text
  | None => []
  end.

(** A text without line feed and carriage return. *)
Definition single_line (s : string) : bool :=
  negb (has_char LF s) && negb (has_char CR s).

(** The text of a file whose lines all end with [ending]. *)
Fixpoint lines_text (ending : string) (bodies : list string) : string :=
  match bodies with
  | [] => EmptyString
  | b :: bodies' => b ++ ending ++ lines_text ending bodies'
  end.

(** A line as [record] writes it: a body free of line breaks, then a line
    feed. *)
Definition record_line (l : string) : Prop :=
  exists body, l = body ++ chr LF /\ single_line body = true.

End History.

(* ================================================================== *)
(** * Timeline Projector: [write_schedule] *)

Module Schedule.
Import Py Sys.

Section WriteSchedule.
Variable cfg : config.
Variable e : env.

Definition get_length (file : string) : string + exn :=
  let result := ffprobe e file in
  if String.eqb result EmptyString
  then inr (Exception ("ffprobe was unable to read duration of: " ++ file))
  else inl result.

(** Lines 125 and 133: the extension removed, backslashes turned into
    forward slashes. *)
Definition strip (filename : string) : string :=
  replace_char backslash "/" (fst (splitext filename)).

(** The [for] loop of lines 127-140. *)
Fixpoint project (file_list : list string) (next_time : Z)
         (coming_up_next : list (Z * string)) : list (Z * string) + exn :=
  match file_list with
  | [] => inl coming_up_next
  | filename :: file_list' =>
      match get_length (path_join (BASE_PATH cfg) filename) with
      | inr ex => inr ex
      | inl result =>
          match float_seconds e result with
          | None => inr ValueError
          | Some duration =>
              project file_list' (next_time + duration)%Z
                      (coming_up_next ++ [(next_time, strip filename)])%list
          end
      end
  end.

(** [n.replace("'", r"\'")] *)
Definition escape (n : string) : string :=
  replace_char quote (String backslash (chr quote)) n.

(** One element of the JavaScript array of line 144. *)
Definition js_object (item : Z * string) : string :=
  "{time:'" ++ str_datetime e (fst item) ++ "',name:'"
    ++ escape (snd item) ++ "'}".

Definition js_array_of (coming_up_next : list (Z * string)) : string :=
  "[" ++ join "," (map js_object coming_up_next) ++ "]".

(** The schedule of a list of files whose durations are known: each item
    starts when the one before it ends. *)
Fixpoint timeline (duration : string -> Z) (file_list : list string)
         (next_time : Z) : list (Z * string) :=
  match file_list with
  | [] => []
  | filename :: file_list' =>
      (next_time, strip filename)
        :: timeline duration file_list' (next_time + duration filename)%Z
  end.

(** [duration] tells what the probe and [float] give for every file of a
    list. *)
Definition probed (duration : string -> Z) (file_list : list string) : Prop :=
  forall filename,
    In filename file_list ->
    ffprobe e (path_join (BASE_PATH cfg) filename) <> EmptyString
    /\ float_seconds e (ffprobe e (path_join (BASE_PATH cfg) filename))
       = Some (duration filename).

(** The exceptions of a probe that gave nothing usable: the one of line
    112, and the [ValueError] of [float] on text that is no number. *)
Definition ProbeError (ex : exn) : Prop :=
  ex = ValueError
  \/ exists file, ex = Exception ("ffprobe was unable to read duration of: " ++ file).

(** Every single quote of a text comes right after a backslash, and every
    backslash right before a single quote. *)
Fixpoint well_escaped (s : string) : bool :=
  match s with
  | EmptyString => true
  | String a s' =>
      if Ascii.eqb a backslash then
        match s' with
        | String b s'' => Ascii.eqb b quote && well_escaped s''
        | EmptyString => false
        end
      else negb (Ascii.eqb a quote) && well_escaped s'
  end.

(** [write_schedule(file_list, previous_file)]: the artifact written to
    [SCHEDULE_PATH], or the exception that ends the call before anything
    is written. The template is taken to be readable and well formed. *)
Definition write_schedule (file_list : list string) (previous_file : string)
  : artifact + exn :=
  let next_time := utcnow e in
  let previous_file :=
    if negb (String.eqb previous_file EmptyString)
    then strip previous_file else previous_file in
  match project file_list next_time [] with
  | inr ex => inr ex
  | inl coming_up_next =>
      inl (Artifact (js_array_of coming_up_next) previous_file)
  end.
End WriteSchedule.

End Schedule.

(* ================================================================== *)
(** * Playback Coordinator: [loop] *)

Module Coordinator.
Import Py Sys Gate History Schedule.
Local Open Scope py_scope.

Section Loop.
Variable cfg : config.

(** Lines 163-170: the cursor is read, and created as 0 when absent. *)
Definition read_index : M Z :=
  fun w =>
    match play_index_txt w with
    | Holds n => Done n w
    | Garbage => Raised ValueError w
    | NoFile => Done 0%Z (set_index 0 w)
    end.

(** Lines 207-219: the slice handed to [write_schedule]. *)
Definition media_copy (media_playlist : list string) (play_index : Z)
  : list string :=
  let media_progress := slice_from media_playlist play_index in
  if (SCHEDULE_UPCOMING_LENGTH cfg <=? len media_progress)%Z
  then slice_to media_progress (SCHEDULE_UPCOMING_LENGTH cfg + 1)
  else (media_progress ++
        islice_cycle media_playlist
          (Z.to_nat (SCHEDULE_UPCOMING_LENGTH cfg - len media_progress + 1)))%list.

(** The command line of lines 224 and 234. *)
Definition player_command (video_file_fullpath : string) : string :=
  MEDIA_PLAYER_PATH cfg ++ " " ++ MEDIA_PLAYER_BEFORE_ARGUMENTS cfg ++ " "
    ++ chr dquote ++ video_file_fullpath ++ chr dquote ++ " "
    ++ MEDIA_PLAYER_AFTER_ARGUMENTS cfg.

(** The schedule process: an exception ends the child alone, the parent
    only joins it. The player and the schedule process touch disjoint
    parts of the state, so the order they are run in here is
    immaterial. *)
Definition schedule_p (e : env) (file_list : list string)
           (previous_file : string) : M unit :=
  modify (fun w =>
            match write_schedule cfg e file_list previous_file with
            | inl a => set_schedule a w
            | inr _ => w
            end).

(** The cursor as the next call of [loop] will read it. *)
Definition persisted (w : world) : option Z :=
  match play_index_txt w with
  | Holds n => Some n
  | NoFile => Some 0%Z
  | Garbage => None
  end.

(** One call of [loop(media_playlist)]. *)
Definition loop (e : env) (fuel : nat) (media_playlist : list string)
  : M unit :=
  play_index <- read_index ;;
  play_index <-
    (if (play_index <? len media_playlist)%Z then
       let video_time := now e in
       video_file <- of_option IndexError
                       (getitem media_playlist play_index) ;;
       let video_file_fullpath := path_join (BASE_PATH cfg) video_file in
       check_file cfg e video_file_fullpath fuel ;;
       record cfg video_time video_file ;;
       modify (emit (Print ("Now playing: " ++ video_file))) ;;
       match SCHEDULE_PATH cfg with
       | Some _ =>
           let media_copy := media_copy media_playlist play_index in
           previous_file <- of_option IndexError
                              (getitem media_playlist (play_index - 1)) ;;
           modify (emit (Run (player_command video_file_fullpath))) ;;
           modify (emit (Spawn media_copy previous_file)) ;;
           schedule_p e media_copy previous_file ;;
           ret (play_index + 1)%Z
       | None =>
           modify (emit (Run (player_command video_file_fullpath))) ;;
           ret (play_index + 1)%Z
       end
     else ret 0%Z) ;;
  modify (set_index play_index).

(** The first [cycles] turns of [while True: loop(media_playlist)];
    [envs n] is what turn [n] observes. Nothing but the files is carried
    from one turn to the next, so a restart of the process between two
    turns changes nothing. *)
Fixpoint run (envs : nat -> env) (fuel : nat) (media_playlist : list string)
         (cycles : nat) : M unit :=
  match cycles with
  | O => ret tt
  | S n => run envs fuel media_playlist n ;; loop (envs n) fuel media_playlist
  end.
End Loop.

End Coordinator.

(* ================================================================== *)
(** * Sample inputs *)

Module Sample.
Import Py Sys.

(** The configuration as the script ships. *)
Definition shipped : config :=
  Config "/usr/bin/ffmpeg" "/usr/bin/ffprobe" "-hide_banner -re -i"
         ("-filter_complex " ++ chr dquote ++ "tpad=stop_duration=2;apad=pad_dur=2"
            ++ chr dquote
            ++ " -vcodec libx264 -b:v 1100k -acodec aac -b:a 128k -f flv -framerate 30 -g 60 rtmp://{rtmp_address}")
         "/media/videos/" 0 5 10 (Some "/var/www/schedule.html") 10.

Definition with_retry (attempts period : Z) (c : config) : config :=
  Config (MEDIA_PLAYER_PATH c) (FFPROBE_PATH c)
         (MEDIA_PLAYER_BEFORE_ARGUMENTS c) (MEDIA_PLAYER_AFTER_ARGUMENTS c)
         (BASE_PATH c) attempts period (PLAY_HISTORY_LENGTH c)
         (SCHEDULE_PATH c) (SCHEDULE_UPCOMING_LENGTH c).

Definition with_history (n : Z) (c : config) : config :=
  Config (MEDIA_PLAYER_PATH c) (FFPROBE_PATH c)
         (MEDIA_PLAYER_BEFORE_ARGUMENTS c) (MEDIA_PLAYER_AFTER_ARGUMENTS c)
         (BASE_PATH c) (RETRY_ATTEMPTS c) (RETRY_PERIOD c) n
         (SCHEDULE_PATH c) (SCHEDULE_UPCOMING_LENGTH c).

Definition with_upcoming (m : Z) (c : config) : config :=
  Config (MEDIA_PLAYER_PATH c) (FFPROBE_PATH c)
         (MEDIA_PLAYER_BEFORE_ARGUMENTS c) (MEDIA_PLAYER_AFTER_ARGUMENTS c)
         (BASE_PATH c) (RETRY_ATTEMPTS c) (RETRY_PERIOD c)
         (PLAY_HISTORY_LENGTH c) (SCHEDULE_PATH c) m.

(** Durations as ffprobe prints them for three files, whole seconds. *)
Definition probe_abc (file : string) : string :=
  if String.eqb file "/media/videos/A.mp4" then "30"
  else if String.eqb file "/media/videos/B.mp4" then "20"
  else if String.eqb file "/media/videos/C.mp4" then "10"
  else EmptyString.

(** The same durations, in microseconds. *)
Definition duration_abc (filename : string) : Z :=
  if String.eqb filename "A.mp4" then 30000000
  else if String.eqb filename "B.mp4" then 20000000
  else 10000000.

(** [float] on the decimal text of a whole number of seconds. *)
Definition whole_seconds (text : string) : option Z :=
  match NilZero.int_of_string text with
  | Some d => Some (Z.of_int d * 1000000)%Z
  | None => None
  end.

(** An environment where every file is there and the clock reads
    [t0]. *)
Definition calm (t0 : Z) : env :=
  Env "2026-01-01 00:00:00" t0 (fun t => "t" ++ str_int t)
      (fun _ _ => true) probe_abc whole_seconds.

(** The same with a file system given by [present]. *)
Definition flaky (present : string -> nat -> bool) : env :=
  Env "2026-01-01 00:00:00" 0 (fun t => "t" ++ str_int t)
      present probe_abc whole_seconds.

(** File systems: nothing is ever there; everything appears at call [n]. *)
Definition never : string -> nat -> bool := fun _ _ => false.
Definition appears_at (n : nat) : string -> nat -> bool := fun _ k => Nat.leb n k.

Definition fresh : world := World NoFile None None [].

Definition at_cursor (n : Z) : world := World (Holds n) None None [].

Definition abc : list string := ["A.mp4"; "B.mp4"; "C.mp4"].

(** An entry of an inline playlist that holds a line feed. *)
Definition two_line_entry : string := "a" ++ chr LF ++ "b.mp4".

End Sample.

(* ================================================================== *)
(** * Properties *)

Import Py Sys Loader Gate History Schedule Coordinator.

(** ** Strings *)

Lemma prefix_app (p s : string) :
  String.prefix p s = true <-> exists r, s = p ++ r.
Proof.
  revert s; induction p as [|a p IH]; intros s; simpl.
  - split; [intros _; exists s; reflexivity | destruct s; reflexivity].
  - destruct s as [|b s]; simpl.
    + split; [discriminate | intros [r H]; discriminate].
    + destruct (ascii_dec a b) as [->|Hne].
      * rewrite IH. split; intros [r H]; exists r; congruence.
      * split; [discriminate | intros [r H]; congruence].
Qed.

Lemma startswith_app (s p : string) :
  startswith s p = true <-> exists r, s = p ++ r.
Proof. apply prefix_app. Qed.

(** ** Playlist Loader *)

Lemma kept_iff (i : string) : kept i = true <-> ~ dropped i.
Proof.
  unfold kept, dropped.
  rewrite !andb_true_iff, !negb_true_iff, String.eqb_neq.
  rewrite <- !not_true_iff_false, !startswith_app.
  tauto.
Qed.

Lemma normalize_Normalizes (l : list string) : Normalizes l (normalize l).
Proof.
  induction l as [|x l IH]; simpl.
  - constructor.
  - destruct (kept x) eqn:K.
    + apply Normalizes_keep; [apply kept_iff, K | exact IH].
    + apply Normalizes_drop; [|exact IH].
      destruct (String.eqb x EmptyString) eqn:E.
      * left. apply String.eqb_eq, E.
      * right. unfold kept in K. rewrite E in K. simpl in K.
        rewrite !andb_false_iff, !negb_false_iff, !startswith_app in K. tauto.
Qed.

Lemma Normalizes_normalize (l l' : list string) :
  Normalizes l l' -> l' = normalize l.
Proof.
  induction 1 as [|x l l' D _ IH|x l l' D _ IH]; simpl.
  - reflexivity.
  - destruct (kept x) eqn:K; [|exact IH].
    apply kept_iff in K. contradiction.
  - apply kept_iff in D. rewrite D. f_equal. exact IH.
Qed.

(** C7. Loading a text-backed playlist splits the text into lines and
    drops exactly the lines that are empty or begin with [;], [#] or [//],
    keeping the others in order: the loaded playlist is the one list
    related to the lines by [Normalizes]; an inline list goes through the
    same filter, and the list of the specification normalizes to
    [a.mp4; b.mp4]. *)
Theorem playlist_normalization :
  (forall path text,
      exists l, load (FromFile path (Some text)) = inl l
                /\ forall l', Normalizes (splitlines text) l' <-> l' = l)
  /\ (forall lines,
         exists l, load (FromList lines) = inl l
                   /\ forall l', Normalizes lines l' <-> l' = l)
  /\ load (FromList [EmptyString; "; skip"; "a.mp4"; "# skip"; "// skip"; "b.mp4"])
     = inl ["a.mp4"; "b.mp4"]
  /\ load (FromFile "/home/pi/list.txt"
             (Some (chr LF ++ "; skip" ++ chr LF ++ "a.mp4" ++ chr LF ++ "# skip"
                      ++ chr LF ++ "// skip" ++ chr LF ++ "b.mp4" ++ chr LF)))
     = inl ["a.mp4"; "b.mp4"].
Proof.
  repeat split.
  - intros path text. exists (normalize (splitlines text)).
    split; [reflexivity|]. intros l'. split.
    + apply Normalizes_normalize.
    + intros ->. apply normalize_Normalizes.
  - intros lines. exists (normalize lines).
    split; [reflexivity|]. intros l'. split.
    + apply Normalizes_normalize.
    + intros ->. apply normalize_Normalizes.
Qed.

(** ** The state monad *)

Lemma emits_nil (w : world) : emits [] w = w.
Proof. destruct w; unfold emits; simpl. now rewrite app_nil_r. Qed.

Lemma emits_emit (x : event) (w : world) : emit x w = emits [x] w.
Proof. reflexivity. Qed.

Lemma emits_emits (t1 t2 : list event) (w : world) :
  emits t2 (emits t1 w) = emits (t1 ++ t2) w.
Proof. unfold emits; simpl. now rewrite app_assoc. Qed.

Ltac console_eq :=
  unfold emit, emits; simpl; repeat rewrite <- app_assoc; reflexivity.

Lemma checks_app (t1 t2 : list event) : checks (t1 ++ t2) = checks t1 + checks t2.
Proof. unfold checks. now rewrite filter_app, length_app. Qed.

Lemma slept_app (t1 t2 : list event) : slept (t1 ++ t2) = (slept t1 ++ slept t2)%list.
Proof.
  induction t1 as [|x t1 IH]; simpl; [reflexivity|].
  destruct x; simpl; now rewrite IH.
Qed.

Lemma printed_app (t1 t2 : list event) :
  printed (t1 ++ t2) = (printed t1 ++ printed t2)%list.
Proof.
  induction t1 as [|x t1 IH]; simpl; [reflexivity|].
  destruct x; simpl; now rewrite IH.
Qed.

(** ** Availability Gate *)

Section GateFacts.
Variable cfg : config.
Variable e : env.
Variable path : string.
Hypothesis period_ok : (0 <= RETRY_PERIOD cfg)%Z.

Let d := RETRY_PERIOD cfg.

Lemma sleep_ok (w : world) : sleep d w = Done tt (emit (Sleep d) w).
Proof.
  unfold sleep. destruct (Z.ltb_spec d 0); [unfold d in *; lia | reflexivity].
Qed.

(** One failed attempt of the countdown. *)
Lemma countdown_step (fuel : nat) (r : Z) (s : option string) (p : nat) (w : world) :
  (0 < r)%Z -> isfile e path p = false ->
  while_not_isfile cfg e path (S fuel) (Locals r s p) w
  = while_not_isfile cfg e path fuel
      (Locals (r - 1) (Some (attempts_string r)) (S p))
      (emits (failed_attempt cfg path (attempts_string r)) w).
Proof.
  intros Hr Hp. simpl. unfold bind, modify. rewrite Hp. simpl.
  unfold countdown. simpl.
  destruct (Z.ltb_spec 0 r); [|lia]. simpl.
  fold d. rewrite sleep_ok. f_equal. console_eq.
Qed.

(** One failed attempt of the unbounded mode. *)
Lemma notice_step (fuel : nat) (r : Z) (s : string) (p : nat) (w : world) :
  (r < 0)%Z -> isfile e path p = false ->
  while_not_isfile cfg e path (S fuel) (Locals r (Some s) p) w
  = while_not_isfile cfg e path fuel (Locals r (Some s) (S p))
      (emits (failed_attempt cfg path s) w).
Proof.
  intros Hr Hp. simpl. unfold bind, modify. rewrite Hp. simpl.
  unfold countdown. simpl.
  destruct (Z.ltb_spec 0 r); [lia|].
  destruct (Z.eqb_spec r 0); [lia|]. simpl.
  fold d. rewrite sleep_ok. f_equal. console_eq.
Qed.

Lemma found_step (fuel : nat) (l : locals) (w : world) :
  isfile e path (polls l) = true ->
  while_not_isfile cfg e path (S fuel) l w = Done tt (emits [IsFile path true] w).
Proof. intros Hp. simpl. unfold bind, modify. rewrite Hp. reflexivity. Qed.

Lemma bounded_found (k : nat) :
  forall fuel r s p w,
    (Z.of_nat k <= r)%Z -> k < fuel ->
    (forall j, j < k -> isfile e path (p + j) = false) ->
    isfile e path (p + k) = true ->
    while_not_isfile cfg e path fuel (Locals r s p) w
    = Done tt (emits (countdown_trace cfg path r k ++ [IsFile path true]) w).
Proof.
  induction k as [|k IH]; intros fuel r s p w Hr Hf Hmiss Hhit.
  - destruct fuel as [|fuel]; [lia|].
    rewrite Nat.add_0_r in Hhit. now rewrite found_step.
  - destruct fuel as [|fuel]; [lia|].
    rewrite countdown_step; [|lia|].
    + rewrite (IH fuel (r - 1)%Z _ (S p)); try lia.
      * rewrite emits_emits. cbn [countdown_trace]. rewrite <- app_assoc.
        reflexivity.
      * intros j Hj. replace (S p + j) with (p + S j) by lia. apply Hmiss. lia.
      * replace (S p + k) with (p + S k) by lia. exact Hhit.
    + specialize (Hmiss 0). rewrite Nat.add_0_r in Hmiss. apply Hmiss. lia.
Qed.

Lemma bounded_missing (k : nat) :
  forall fuel r s p w,
    r = Z.of_nat k -> k < fuel ->
    (forall j, j <= k -> isfile e path (p + j) = false) ->
    while_not_isfile cfg e path fuel (Locals r s p) w
    = Raised (FileNotFoundError path)
        (emits (countdown_trace cfg path r k ++ [IsFile path false]) w).
Proof.
  induction k as [|k IH]; intros fuel r s p w Hr Hf Hmiss.
  - destruct fuel as [|fuel]; [lia|]. subst r.
    simpl. unfold bind, modify.
    specialize (Hmiss 0). rewrite Nat.add_0_r in Hmiss. rewrite Hmiss by lia.
    reflexivity.
  - destruct fuel as [|fuel]; [lia|].
    rewrite countdown_step; [|lia|].
    + rewrite (IH fuel (r - 1)%Z _ (S p)); try lia.
      * rewrite emits_emits. cbn [countdown_trace]. rewrite <- app_assoc.
        reflexivity.
      * intros j Hj. replace (S p + j) with (p + S j) by lia. apply Hmiss. lia.
    + specialize (Hmiss 0). rewrite Nat.add_0_r in Hmiss. apply Hmiss. lia.
Qed.

Lemma unbounded_found (k : nat) :
  forall fuel r s p w,
    (r < 0)%Z -> k < fuel ->
    (forall j, j < k -> isfile e path (p + j) = false) ->
    isfile e path (p + k) = true ->
    while_not_isfile cfg e path fuel (Locals r (Some s) p) w
    = Done tt (emits (notice_trace cfg path s k ++ [IsFile path true]) w).
Proof.
  induction k as [|k IH]; intros fuel r s p w Hr Hf Hmiss Hhit.
  - destruct fuel as [|fuel]; [lia|].
    rewrite Nat.add_0_r in Hhit. now rewrite found_step.
  - destruct fuel as [|fuel]; [lia|].
    rewrite notice_step; [|lia|].
    + rewrite (IH fuel r _ (S p)); try lia.
      * rewrite emits_emits. cbn [notice_trace]. rewrite <- app_assoc.
        reflexivity.
      * intros j Hj. replace (S p + j) with (p + S j) by lia. apply Hmiss. lia.
      * replace (S p + k) with (p + S k) by lia. exact Hhit.
    + specialize (Hmiss 0). rewrite Nat.add_0_r in Hmiss. apply Hmiss. lia.
Qed.

Lemma unbounded_pending (fuel : nat) :
  forall r s p w,
    (r < 0)%Z ->
    (forall j, j < fuel -> isfile e path (p + j) = false) ->
    while_not_isfile cfg e path fuel (Locals r (Some s) p) w
    = Pending (emits (notice_trace cfg path s fuel) w).
Proof.
  induction fuel as [|fuel IH]; intros r s p w Hr Hmiss.
  - simpl. now rewrite emits_nil.
  - rewrite notice_step; [|lia|].
    + rewrite (IH r _ (S p)); try lia.
      * rewrite emits_emits. reflexivity.
      * intros j Hj. replace (S p + j) with (p + S j) by lia. apply Hmiss. lia.
    + specialize (Hmiss 0). rewrite Nat.add_0_r in Hmiss. apply Hmiss. lia.
Qed.
End GateFacts.

Lemma countdown_trace_checks cfg path r k : checks (countdown_trace cfg path r k) = k.
Proof.
  revert r; induction k as [|k IH]; intros r; [reflexivity|].
  cbn [countdown_trace]. rewrite checks_app, IH. reflexivity.
Qed.

Lemma countdown_trace_slept cfg path r k :
  slept (countdown_trace cfg path r k) = repeat (RETRY_PERIOD cfg) k.
Proof.
  revert r; induction k as [|k IH]; intros r; [reflexivity|].
  cbn [countdown_trace]. rewrite slept_app, IH. reflexivity.
Qed.

Lemma notice_trace_checks cfg path s k : checks (notice_trace cfg path s k) = k.
Proof.
  induction k as [|k IH]; [reflexivity|].
  cbn [notice_trace]. rewrite checks_app, IH. reflexivity.
Qed.

Lemma notice_trace_slept cfg path s k :
  slept (notice_trace cfg path s k) = repeat (RETRY_PERIOD cfg) k.
Proof.
  induction k as [|k IH]; [reflexivity|].
  cbn [notice_trace]. rewrite slept_app, IH. reflexivity.
Qed.

Lemma notice_trace_printed cfg path s k :
  printed (notice_trace cfg path s k) = repeat (retry_message cfg path s) k.
Proof.
  induction k as [|k IH]; [reflexivity|].
  cbn [notice_trace]. rewrite printed_app, IH. reflexivity.
Qed.

(** Among the first [n + 1] answers of a file system either one is
    positive, and then there is a first such, or all are negative. *)
Lemma first_hit (f : nat -> bool) (n : nat) :
  (exists k, k <= n /\ f k = true /\ forall j, j < k -> f j = false)
  \/ (forall j, j <= n -> f j = false).
Proof.
  induction n as [|n [(k & Hk & Hf & Hlt)|Hall]].
  - destruct (f 0) eqn:E.
    + left. exists 0. split; [lia | split; [assumption | intros j Hj; lia]].
    + right. intros j Hj. now replace j with 0 by lia.
  - left. exists k. split; [lia | split; assumption].
  - destruct (f (S n)) eqn:E.
    + left. exists (S n). split; [lia | split; [assumption|]].
      intros j Hj. apply Hall. lia.
    + right. intros j Hj. destruct (Nat.eq_dec j (S n)) as [->|Hne];
        [assumption | apply Hall; lia].
Qed.

(** In the unbounded mode the exception of line 85 is out of reach,
    whatever the period. *)
Lemma unbounded_never_raises_not_found cfg e path (fuel : nat) :
  forall r s p w q w',
    (r < 0)%Z ->
    while_not_isfile cfg e path fuel (Locals r s p) w
    <> Raised (FileNotFoundError q) w'.
Proof.
  induction fuel as [|fuel IH]; intros r s p w q w' Hr; [discriminate|].
  simpl. unfold bind, modify.
  destruct (isfile e path p); [discriminate|].
  unfold countdown. simpl.
  destruct (Z.ltb_spec 0 r); [lia|].
  destruct (Z.eqb_spec r 0); [lia|]. simpl.
  destruct s as [s|]; simpl; [|discriminate].
  unfold sleep. destruct (RETRY_PERIOD cfg <? 0)%Z; simpl; [discriminate|].
  apply IH. exact Hr.
Qed.

(** C4. With no retries a missing path raises at the first check, before
    any sleep. With two retries one second apart the gate makes at most
    three checks, returns when one of them finds the path, and raises
    only when all three fail, two seconds of sleep having passed. In any
    mode, a path that appears at one of the checks the gate makes lets it
    return without error. *)
Theorem availability_gate_bounded :
  (forall cfg e path w fuel,
      RETRY_ATTEMPTS cfg = 0%Z -> isfile e path 0 = false ->
      check_file cfg e path (S fuel) w
      = Raised (FileNotFoundError path) (emits [IsFile path false] w))
  /\ (forall cfg e path w fuel,
         RETRY_ATTEMPTS cfg = 2%Z -> RETRY_PERIOD cfg = 1%Z -> 3 <= fuel ->
         exists t,
           checks t <= 3
           /\ ((exists k, k < 3 /\ isfile e path k = true
                          /\ check_file cfg e path fuel w = Done tt (emits t w))
               \/ ((forall k, k < 3 -> isfile e path k = false)
                   /\ check_file cfg e path fuel w
                      = Raised (FileNotFoundError path) (emits t w)
                   /\ checks t = 3 /\ slept t = [1; 1]%Z
                   /\ total (slept t) = 2%Z)))
  /\ (forall cfg e path w fuel k,
         k = 0 \/ (0 <= RETRY_PERIOD cfg)%Z ->
         (RETRY_ATTEMPTS cfg < 0 \/ Z.of_nat k <= RETRY_ATTEMPTS cfg)%Z ->
         (forall j, j < k -> isfile e path j = false) ->
         isfile e path k = true -> k < fuel ->
         exists t, check_file cfg e path fuel w = Done tt (emits t w)
                   /\ checks t = S k).
Proof.
  split; [|split].
  - intros cfg e path w fuel Hr Hp.
    unfold check_file. rewrite Hr. simpl. unfold bind, modify.
    rewrite Hp. reflexivity.
  - intros cfg e path w fuel Hr Hd Hfuel.
    assert (Hper : (0 <= RETRY_PERIOD cfg)%Z) by lia.
    unfold check_file. rewrite Hr. simpl Z.ltb. cbv iota.
    destruct (first_hit (isfile e path) 2) as [(k & Hk & Hhit & Hmiss)|Hall].
    + exists (countdown_trace cfg path 2 k ++ [IsFile path true])%list.
      split.
      * rewrite checks_app, countdown_trace_checks. unfold checks; simpl. lia.
      * left. exists k. split; [lia | split; [assumption|]].
        apply bounded_found; try assumption; try lia.
    + exists (countdown_trace cfg path 2 2 ++ [IsFile path false])%list.
      split; [rewrite checks_app, countdown_trace_checks; unfold checks; simpl; lia|].
      right. split; [intros k Hk; apply Hall; lia|].
      split; [apply (bounded_missing cfg e path Hper 2); try lia; assumption|].
      rewrite checks_app, slept_app, countdown_trace_checks, countdown_trace_slept.
      rewrite Hd. repeat split.
  - intros cfg e path w fuel k [->|Hper] Hmode Hmiss Hhit Hfuel.
    { destruct fuel as [|fuel]; [lia|].
      exists [IsFile path true]. split; [|reflexivity].
      unfold check_file. now apply found_step. }
    unfold check_file.
    destruct (Z.ltb_spec (RETRY_ATTEMPTS cfg) 0) as [Hneg|Hpos].
    + exists (notice_trace cfg path EmptyString k ++ [IsFile path true])%list.
      split; [|rewrite checks_app, notice_trace_checks; unfold checks; simpl; lia].
      apply unbounded_found; assumption.
    + exists (countdown_trace cfg path (RETRY_ATTEMPTS cfg) k ++ [IsFile path true])%list.
      split; [|rewrite checks_app, countdown_trace_checks; unfold checks; simpl; lia].
      apply bounded_found; try assumption. lia.
Qed.

(** C4 at the shipped configuration: no retry on a path that is never
    there; two retries one second apart on a path that is never there; two
    retries on a path that is there at the second check. *)
Lemma availability_gate_bounded_witness :
  check_file Sample.shipped (Sample.flaky Sample.never) "/media/videos/a.mp4" 1 Sample.fresh
  = Raised (FileNotFoundError "/media/videos/a.mp4")
      (emits [IsFile "/media/videos/a.mp4" false] Sample.fresh)
  /\ (exists t,
        checks t <= 3
        /\ ((exists k, k < 3 /\ Sample.never "/media/videos/a.mp4" k = true
                       /\ check_file (Sample.with_retry 2 1 Sample.shipped)
                            (Sample.flaky Sample.never) "/media/videos/a.mp4" 3 Sample.fresh
                          = Done tt (emits t Sample.fresh))
            \/ ((forall k, k < 3 -> Sample.never "/media/videos/a.mp4" k = false)
                /\ check_file (Sample.with_retry 2 1 Sample.shipped)
                     (Sample.flaky Sample.never) "/media/videos/a.mp4" 3 Sample.fresh
                   = Raised (FileNotFoundError "/media/videos/a.mp4") (emits t Sample.fresh)
                /\ checks t = 3 /\ slept t = [1; 1]%Z /\ total (slept t) = 2%Z)))
  /\ (exists t,
        check_file (Sample.with_retry 2 1 Sample.shipped)
          (Sample.flaky (Sample.appears_at 1)) "/media/videos/a.mp4" 3 Sample.fresh
        = Done tt (emits t Sample.fresh)
        /\ checks t = 2).
Proof.
  destruct availability_gate_bounded as (P1 & P2 & P3).
  split; [|split].
  - apply (P1 Sample.shipped (Sample.flaky Sample.never)); reflexivity.
  - apply (P2 (Sample.with_retry 2 1 Sample.shipped) (Sample.flaky Sample.never));
      [reflexivity | reflexivity | lia].
  - apply (P3 (Sample.with_retry 2 1 Sample.shipped)
              (Sample.flaky (Sample.appears_at 1)) _ _ 3 1).
    + right; simpl; lia.
    + right; simpl; lia.
    + intros j Hj. assert (j = 0) as -> by lia. reflexivity.
    + reflexivity.
    + lia.
Defined.

(** C8, as stated, fails: in the unbounded mode every failed attempt
    prints the notice of line 87; only the count of remaining attempts is
    left out of it. Here the path is missing at the first check and there
    at the second. *)
Lemma unbounded_gate_is_not_silent :
  printed (console (final (check_file (Sample.with_retry (-1) 5 Sample.shipped)
                             (Sample.flaky (Sample.appears_at 1))
                             "/media/videos/a.mp4" 2 Sample.fresh)))
  = ["File not found: /media/videos/a.mp4." ++ chr LF
       ++ "Retrying in 5 seconds..." ++ chr LF].
Proof. reflexivity. Qed.

(** C8, amended. With a negative [RETRY_ATTEMPTS] the gate never raises
    the not-found exception; as long as the path is missing it keeps
    checking, and each failed check prints the retry notice without a
    count and sleeps [RETRY_PERIOD]; it returns at the first check that
    finds the path. *)
Theorem availability_gate_unbounded (cfg : config) (e : env) (path : string)
        (w : world) :
  (RETRY_ATTEMPTS cfg < 0)%Z ->
  (forall fuel q w',
      check_file cfg e path fuel w <> Raised (FileNotFoundError q) w')
  /\ ((0 <= RETRY_PERIOD cfg)%Z ->
      (forall fuel,
          (forall j, j < fuel -> isfile e path j = false) ->
          check_file cfg e path fuel w
          = Pending (emits (notice_trace cfg path EmptyString fuel) w))
      /\ (forall k fuel,
             (forall j, j < k -> isfile e path j = false) ->
             isfile e path k = true -> k < fuel ->
             check_file cfg e path fuel w
             = Done tt (emits (notice_trace cfg path EmptyString k
                                 ++ [IsFile path true])%list w)))
  /\ (forall k,
         checks (notice_trace cfg path EmptyString k) = k
         /\ printed (notice_trace cfg path EmptyString k)
            = repeat (retry_message cfg path EmptyString) k
         /\ slept (notice_trace cfg path EmptyString k)
            = repeat (RETRY_PERIOD cfg) k).
Proof.
  intros Hneg. split; [|split].
  - intros fuel q w'. unfold check_file.
    apply unbounded_never_raises_not_found. exact Hneg.
  - intros Hper. unfold check_file.
    destruct (Z.ltb_spec (RETRY_ATTEMPTS cfg) 0) as [_|]; [|lia]. split.
    + intros fuel Hmiss. apply unbounded_pending; assumption.
    + intros k fuel Hmiss Hhit Hfuel. apply unbounded_found; assumption.
  - intros k. split; [|split].
    + apply notice_trace_checks.
    + apply notice_trace_printed.
    + apply notice_trace_slept.
Qed.

(** C8 at [RETRY_ATTEMPTS = -1], a period of five seconds and a path that
    is there at the third check. *)
Lemma availability_gate_unbounded_witness :
  (RETRY_ATTEMPTS (Sample.with_retry (-1) 5 Sample.shipped) < 0)%Z
  /\ check_file (Sample.with_retry (-1) 5 Sample.shipped)
       (Sample.flaky (Sample.appears_at 2)) "/media/videos/a.mp4" 3 Sample.fresh
     = Done tt
         (emits (notice_trace (Sample.with_retry (-1) 5 Sample.shipped)
                   "/media/videos/a.mp4" EmptyString 2
                   ++ [IsFile "/media/videos/a.mp4" true])%list Sample.fresh).
Proof.
  split; [reflexivity|].
  apply (availability_gate_unbounded (Sample.with_retry (-1) 5 Sample.shipped)
           (Sample.flaky (Sample.appears_at 2)) "/media/videos/a.mp4" Sample.fresh).
  - reflexivity.
  - simpl; lia.
  - intros j Hj. destruct j as [|[|j]]; [reflexivity | reflexivity | lia].
  - reflexivity.
  - lia.
Defined.

(** ** History Log *)

Lemma append_nil_r (s : string) : s ++ EmptyString = s.
Proof. induction s as [|a s IH]; simpl; [reflexivity | now rewrite IH]. Qed.

Lemma append_assoc (a b c : string) : (a ++ b) ++ c = a ++ b ++ c.
Proof. induction a as [|x a IH]; simpl; [reflexivity | now rewrite IH]. Qed.

Lemma has_char_app (c : ascii) (a b : string) :
  has_char c (a ++ b) = has_char c a || has_char c b.
Proof.
  induction a as [|x a IH]; simpl; [reflexivity|].
  now rewrite IH, orb_assoc.
Qed.

Lemma single_line_app (a b : string) :
  single_line (a ++ b) = single_line a && single_line b.
Proof.
  unfold single_line. rewrite !has_char_app.
  destruct (has_char LF a), (has_char LF b), (has_char CR a), (has_char CR b);
    reflexivity.
Qed.

Lemma universal_newlines_id (s : string) :
  has_char CR s = false -> universal_newlines s = s.
Proof.
  induction s as [|a s IH]; simpl; [reflexivity|].
  intros H. apply orb_false_iff in H as [Ha Hs].
  rewrite Ha. now rewrite IH.
Qed.

Lemma lines_go_line (body : string) :
  forall cur rest,
    has_char LF body = false ->
    lines_go cur (body ++ String LF rest)
    = (cur ++ body ++ chr LF) :: lines_go EmptyString rest.
Proof.
  induction body as [|a body IH]; intros cur rest H; simpl.
  - reflexivity.
  - simpl in H. apply orb_false_iff in H as [Ha Hb].
    rewrite Ha. rewrite IH by exact Hb.
    now rewrite append_assoc.
Qed.

Lemma history_line_record_line (video_time video_file : string) :
  single_line video_time = true -> single_line video_file = true ->
  record_line (history_line video_time video_file).
Proof.
  intros Ht Hf. exists (video_time ++ "," ++ video_file). split.
  - unfold history_line. now rewrite !append_assoc.
  - rewrite !single_line_app, Ht, Hf. reflexivity.
Qed.

Lemma writelines_no_cr (ls : list string) :
  Forall record_line ls -> has_char CR (writelines ls) = false.
Proof.
  induction 1 as [|l ls (body & -> & Hb) _ IH]; simpl; [reflexivity|].
  rewrite !has_char_app, IH. unfold single_line in Hb.
  apply andb_true_iff in Hb as [_ Hcr]. apply negb_true_iff in Hcr.
  rewrite Hcr. reflexivity.
Qed.

Lemma lines_go_writelines (ls : list string) :
  Forall record_line ls -> lines_go EmptyString (writelines ls) = ls.
Proof.
  induction 1 as [|l ls (body & -> & Hb) _ IH]; simpl; [reflexivity|].
  rewrite append_assoc.
  change (chr LF ++ writelines ls) with (String LF (writelines ls)).
  rewrite lines_go_line.
  - simpl. now rewrite IH.
  - unfold single_line in Hb. apply andb_true_iff in Hb as [Hlf _].
    now apply negb_true_iff in Hlf.
Qed.

(** Reading back what [writelines] wrote gives the lines written. *)
Lemma readlines_writelines (ls : list string) :
  Forall record_line ls -> readlines (writelines ls) = ls.
Proof.
  intros H. unfold readlines.
  rewrite universal_newlines_id by now apply writelines_no_cr.
  now apply lines_go_writelines.
Qed.

Lemma slice_from_neg {A} (l : list A) (n : Z) :
  (0 < n)%Z -> slice_from l (- n) = last_n (Z.to_nat n) l.
Proof.
  intros Hn. unfold slice_from, last_n, clamp, len.
  destruct (Z.leb_spec 0 (- n)); [lia|]. f_equal. lia.
Qed.

Lemma last_n_length {A} (n : nat) (l : list A) :
  List.length (last_n n l) = Nat.min n (List.length l).
Proof. unfold last_n. rewrite length_skipn. lia. Qed.

Lemma last_n_snoc {A} (n : nat) (l : list A) (x : A) :
  0 < n -> last_n n (l ++ [x]) = (skipn (S (List.length l) - n) l ++ [x])%list.
Proof.
  intros Hn. unfold last_n. rewrite length_app, skipn_app. simpl List.length.
  replace (List.length l + 1 - n) with (S (List.length l) - n) by lia.
  replace (S (List.length l) - n - List.length l) with 0 by lia.
  reflexivity.
Qed.

Lemma last_n_last_n_snoc {A} (n : nat) (l : list A) (x : A) :
  0 < n -> last_n n (last_n n l ++ [x]) = last_n n (l ++ [x]).
Proof.
  intros Hn. rewrite !last_n_snoc by exact Hn.
  f_equal. rewrite last_n_length. unfold last_n. rewrite skipn_skipn.
  f_equal. lia.
Qed.

Lemma Forall_last_n {A} (P : A -> Prop) (n : nat) (l : list A) :
  Forall P l -> Forall P (last_n n l).
Proof.
  intros H. apply Forall_forall. intros x Hx.
  rewrite Forall_forall in H. apply H.
  unfold last_n in Hx.
  rewrite <- (firstn_skipn (List.length l - n) l). apply in_or_app. now right.
Qed.

(** One call of [record] with a positive capacity: the log is read, the
    new line appended, the last lines written over the file. *)
Lemma record_rewrites (cfg : config) (video_time video_file : string) (w : world) :
  (0 < PLAY_HISTORY_LENGTH cfg)%Z ->
  record cfg video_time video_file w
  = Done tt (set_history
               (writelines (last_n (Z.to_nat (PLAY_HISTORY_LENGTH cfg))
                                   (log_lines w ++ [history_line video_time video_file])))
               w).
Proof.
  intros HN. unfold record.
  destruct (Z.ltb_spec 0 (PLAY_HISTORY_LENGTH cfg)); [|lia].
  unfold bind, get, modify, log_lines.
  now rewrite slice_from_neg.
Qed.

Lemma record_disabled (cfg : config) (video_time video_file : string) (w : world) :
  (PLAY_HISTORY_LENGTH cfg <= 0)%Z ->
  record cfg video_time video_file w = Done tt w.
Proof.
  intros HN. unfold record.
  destruct (Z.ltb_spec 0 (PLAY_HISTORY_LENGTH cfg)); [lia | reflexivity].
Qed.

Lemma records_disabled (cfg : config) (calls : list (string * string)) (w : world) :
  (PLAY_HISTORY_LENGTH cfg <= 0)%Z -> records cfg calls w = Done tt w.
Proof.
  intros HN. induction calls as [|[t f] calls IH]; simpl; [reflexivity|].
  unfold bind. now rewrite record_disabled.
Qed.

Lemma log_lines_set_history (ls : list string) (w : world) :
  Forall record_line ls -> log_lines (set_history (writelines ls) w) = ls.
Proof. intros H. unfold log_lines; simpl. now apply readlines_writelines. Qed.

Section LastN.
Variable cfg : config.
Hypothesis enabled : (0 < PLAY_HISTORY_LENGTH cfg)%Z.

Let n := Z.to_nat (PLAY_HISTORY_LENGTH cfg).

(** The invariant of the log over a sequence of calls: when the log holds
    the last [n] of the lines [ls], it holds after the calls the last [n]
    of [ls] followed by the lines of the calls. *)
Lemma records_invariant (calls : list (string * string)) :
  forall (ls : list string) (w : world),
    Forall (fun c => single_line (fst c) = true /\ single_line (snd c) = true) calls ->
    Forall record_line ls ->
    log_lines w = last_n n ls ->
    exists w',
      records cfg calls w = Done tt w'
      /\ log_lines w'
         = last_n n (ls ++ map (fun c => history_line (fst c) (snd c)) calls)
      /\ (calls <> [] ->
          play_history_txt w'
          = Some (writelines
                    (last_n n (ls ++ map (fun c => history_line (fst c) (snd c)) calls))))
      /\ play_index_txt w' = play_index_txt w
      /\ schedule_html w' = schedule_html w
      /\ console w' = console w.
Proof.
  induction calls as [|[t f] calls IH]; intros ls w Hcalls Hls Hlog.
  - exists w. simpl. rewrite app_nil_r. repeat split; try assumption.
    intros H; now elim H.
  - inversion Hcalls as [|c cs [Ht Hf] Hrest]; subst. simpl in Ht, Hf.
    assert (Hline : Forall record_line (ls ++ [history_line t f])).
    { apply Forall_app. split; [assumption|]. constructor; [|constructor].
      now apply history_line_record_line. }
    simpl records. unfold bind. rewrite record_rewrites by exact enabled.
    fold n. rewrite Hlog, last_n_last_n_snoc by (unfold n; lia).
    destruct (IH (ls ++ [history_line t f])%list
                 (set_history (writelines (last_n n (ls ++ [history_line t f]))) w))
      as (w' & Hrun & Hlog' & Htext & Hidx & Hsch & Hcon); try assumption.
    { apply log_lines_set_history. now apply Forall_last_n. }
    exists w'. simpl map. rewrite <- app_assoc in Hlog', Htext. simpl in Hlog', Htext.
    split; [exact Hrun|]. split; [exact Hlog'|].
    split; [|repeat split; assumption].
    intros _. destruct calls as [|c calls'].
    + simpl in Hrun. injection Hrun as <-. simpl. reflexivity.
    + apply Htext. discriminate.
Qed.
End LastN.

(** The lines [splitlines] gives hold no line break: the entries of a
    text-backed playlist are single lines. *)
Lemma splitlines_go_single_line (s : string) :
  forall skip_lf cur x,
    single_line cur = true ->
    In x (splitlines_go skip_lf cur s) -> single_line x = true.
Proof.
  induction s as [|c s IH]; intros skip_lf cur x Hcur Hx; simpl in Hx.
  - destruct cur; [destruct Hx|]. destruct Hx as [<-|[]]. exact Hcur.
  - destruct (skip_lf && Ascii.eqb c LF); [now apply IH in Hx|].
    destruct (is_linebreak c) eqn:Hc.
    + destruct Hx as [<-|Hx]; [exact Hcur | now apply IH in Hx].
    + apply IH in Hx; [exact Hx|].
      rewrite single_line_app, Hcur. unfold single_line. simpl.
      unfold is_linebreak in Hc. rewrite !orb_false_iff in Hc.
      destruct Hc as [[[[[[[-> ->] _] _] _] _] _] _]. reflexivity.
Qed.

Lemma text_playlist_single_lines (text x : string) :
  In x (normalize (splitlines text)) -> single_line x = true.
Proof.
  unfold normalize. rewrite filter_In. intros [Hx _].
  now apply splitlines_go_single_line in Hx.
Qed.

(** C5. Where the code departs from the claim: an entry of an inline
    playlist that holds a line feed makes a record of two lines of the
    file, and with a capacity of two the next call, which reads the log
    by lines, keeps the second half of that record only, where the claim
    has the log hold the last two records. *)
Lemma history_log_splits_a_record :
  play_history_txt
    (final (records (Sample.with_history 2 Sample.shipped)
              [("t1", Sample.two_line_entry); ("t2", "c.mp4")] Sample.fresh))
  = Some ("b.mp4" ++ chr LF ++ "t2,c.mp4" ++ chr LF)
  /\ play_history_txt
       (final (records (Sample.with_history 2 Sample.shipped)
                 [("t1", Sample.two_line_entry); ("t2", "c.mp4")] Sample.fresh))
     <> Some (writelines
                (last_n 2 [history_line "t1" Sample.two_line_entry;
                           history_line "t2" "c.mp4"])).
Proof. split; [reflexivity | discriminate]. Qed.

(** The same through [loop]: two turns over an inline playlist whose
    first entry holds a line feed, with a capacity of two. *)
Lemma history_log_splits_a_record_in_a_run :
  play_history_txt
    (final (run (Sample.with_history 2 Sample.shipped) (fun _ => Sample.calm 0) 1
              [Sample.two_line_entry; "c.mp4"] 2 Sample.fresh))
  = Some ("b.mp4" ++ chr LF ++ "2026-01-01 00:00:00,c.mp4" ++ chr LF).
Proof. reflexivity. Qed.

(** On timestamps and entries free of line breaks the log is as the
    history is meant to be. With a capacity of 0 (or less) [record] does
    nothing. With a capacity [N > 0], every call reads the log, appends
    its line and writes the last [N] lines over the file; and after any
    sequence of calls on a log that did not exist the log holds exactly
    the lines of the last [min N calls] calls, in call order, newest
    last. *)
Theorem history_log_last_n (cfg : config) (calls : list (string * string))
        (w : world) :
  play_history_txt w = None ->
  Forall (fun c => single_line (fst c) = true /\ single_line (snd c) = true) calls ->
  ((PLAY_HISTORY_LENGTH cfg <= 0)%Z -> records cfg calls w = Done tt w)
  /\ ((0 < PLAY_HISTORY_LENGTH cfg)%Z ->
      (forall video_time video_file w0,
          record cfg video_time video_file w0
          = Done tt (set_history
                       (writelines
                          (last_n (Z.to_nat (PLAY_HISTORY_LENGTH cfg))
                             (log_lines w0 ++ [history_line video_time video_file])))
                       w0))
      /\ exists w',
        records cfg calls w = Done tt w'
        /\ log_lines w'
           = last_n (Z.to_nat (PLAY_HISTORY_LENGTH cfg))
                    (map (fun c => history_line (fst c) (snd c)) calls)
        /\ List.length (log_lines w')
           = Nat.min (Z.to_nat (PLAY_HISTORY_LENGTH cfg)) (List.length calls)
        /\ (calls <> [] ->
            play_history_txt w'
            = Some (writelines
                      (last_n (Z.to_nat (PLAY_HISTORY_LENGTH cfg))
                              (map (fun c => history_line (fst c) (snd c)) calls))))).
Proof.
  intros Hfresh Hcalls. split.
  - intros HN. now apply records_disabled.
  - intros HN. split.
    + intros t f w0. now apply record_rewrites.
    + destruct (records_invariant cfg HN calls [] w Hcalls)
        as (w' & Hrun & Hlog & Htext & _).
      * constructor.
      * unfold log_lines. rewrite Hfresh. reflexivity.
      * exists w'. simpl in Hlog, Htext.
        split; [exact Hrun|]. split; [exact Hlog|]. split; [|exact Htext].
        rewrite Hlog, last_n_length, length_map. reflexivity.
Qed.

(** The same at a capacity of two and three calls. *)
Lemma history_log_last_n_witness :
  exists w',
    records (Sample.with_history 2 Sample.shipped)
      [("t1", "a.mp4"); ("t2", "b.mp4"); ("t3", "c.mp4")] Sample.fresh
    = Done tt w'
    /\ log_lines w' = ["t2,b.mp4" ++ chr LF; "t3,c.mp4" ++ chr LF].
Proof.
  destruct (history_log_last_n (Sample.with_history 2 Sample.shipped)
              [("t1", "a.mp4"); ("t2", "b.mp4"); ("t3", "c.mp4")] Sample.fresh)
    as [_ H].
  - reflexivity.
  - repeat constructor.
  - destruct H as [_ (w' & Hrun & Hlog & _)]; [simpl; lia|].
    exists w'. split; [exact Hrun | exact Hlog].
Defined.

(** ** Playback Coordinator *)

Lemma gate_event_spawned (t : list event) :
  Forall gate_event t -> spawned t = [] /\ played t = [].
Proof.
  induction 1 as [|ev t Hev _ [IH1 IH2]]; [split; reflexivity|].
  destruct ev; simpl in *; try contradiction; split; assumption.
Qed.

Lemma played_app (t1 t2 : list event) :
  played (t1 ++ t2) = (played t1 ++ played t2)%list.
Proof.
  induction t1 as [|x t1 IH]; simpl; [reflexivity|].
  destruct x; simpl; now rewrite IH.
Qed.

Lemma spawned_app (t1 t2 : list event) :
  spawned (t1 ++ t2) = (spawned t1 ++ spawned t2)%list.
Proof.
  induction t1 as [|x t1 IH]; simpl; [reflexivity|].
  destruct x; simpl; now rewrite IH.
Qed.

(** Whatever its outcome, [check_file] only adds checks, notices and
    sleeps to the console and leaves the files alone. *)
Lemma while_not_isfile_emits cfg e path (fuel : nat) :
  forall l w,
  exists t, final (while_not_isfile cfg e path fuel l w) = emits t w
            /\ Forall gate_event t.
Proof.
  induction fuel as [|fuel IH]; intros l w.
  - exists []. simpl. now rewrite emits_nil.
  - cbn [while_not_isfile]. unfold bind at 1. unfold modify at 1.
    destruct (isfile e path (polls l)).
    + exists [IsFile path true]. split; [reflexivity|]. repeat constructor.
    + unfold bind at 1.
      destruct (countdown l) as [l'|]; cbn [of_option];
        [|exists [IsFile path false]; split; [reflexivity | repeat constructor]].
      unfold ret at 1. unfold bind at 1.
      destruct (retry_attempts_string l') as [s|]; cbn [of_option];
        [|exists [IsFile path false]; split; [reflexivity | repeat constructor]].
      unfold ret at 1. unfold bind at 1. unfold modify at 1. unfold bind at 1.
      unfold sleep. destruct (RETRY_PERIOD cfg <? 0)%Z.
      * exists [IsFile path false; Print (retry_message cfg path s)].
        split; [unfold raise; console_eq | repeat constructor].
      * unfold modify at 1.
        destruct (IH (Locals (retry_attempts_remaining l') (Some s)
                             (S (polls l')))
                     (emit (Sleep (RETRY_PERIOD cfg))
                        (emit (Print (retry_message cfg path s))
                           (emit (IsFile path false) w)))) as (t & Ht & Hev).
        exists ([IsFile path false; Print (retry_message cfg path s);
                 Sleep (RETRY_PERIOD cfg)] ++ t)%list.
        split.
        -- rewrite Ht. unfold emit, emits; simpl. now rewrite <- !app_assoc.
        -- repeat constructor. exact Hev.
Qed.

Lemma check_file_done cfg e path fuel w w' :
  check_file cfg e path fuel w = Done tt w' ->
  exists t, w' = emits t w /\ Forall gate_event t.
Proof.
  intros H. unfold check_file in H.
  destruct (while_not_isfile_emits cfg e path fuel
              (Locals (RETRY_ATTEMPTS cfg)
                      (if (RETRY_ATTEMPTS cfg <? 0)%Z then Some EmptyString else None) 0) w)
    as (t & Ht & Hev).
  rewrite H in Ht. simpl in Ht. exists t. split; assumption.
Qed.

Lemma check_file_present cfg e path fuel w :
  isfile e path 0 = true ->
  check_file cfg e path (S fuel) w = Done tt (emits [IsFile path true] w).
Proof. intros H. unfold check_file. now apply found_step. Qed.

(** [record] always ends normally and touches the history file only. *)
Lemma record_done cfg video_time video_file w :
  exists w', record cfg video_time video_file w = Done tt w'
             /\ play_index_txt w' = play_index_txt w
             /\ schedule_html w' = schedule_html w
             /\ console w' = console w.
Proof.
  unfold record. destruct (0 <? PLAY_HISTORY_LENGTH cfg)%Z.
  - unfold bind, get, modify. eexists. split; [reflexivity|].
    repeat split.
  - exists w. repeat split.
Qed.

(** Indexing inside the bounds. *)
Lemma getitem_inside {A} (l : list A) (i : Z) :
  (0 <= i < len l)%Z -> exists x, getitem l i = Some x.
Proof.
  intros Hi. unfold getitem. destruct (Z.leb_spec 0 i); [|lia].
  destruct (nth_error l (Z.to_nat i)) eqn:E; [now eexists|].
  apply nth_error_None in E. unfold len in Hi. lia.
Qed.

Lemma nth_error_last {A} (l : list A) (d : A) :
  l <> [] -> nth_error l (List.length l - 1) = Some (last l d).
Proof.
  induction l as [|x l IH]; intros Hl; [now elim Hl|].
  destruct l as [|y l]; [reflexivity|].
  replace (List.length (x :: y :: l) - 1) with (S (List.length (y :: l) - 1))
    by (simpl; lia).
  cbn [nth_error]. rewrite IH by discriminate. reflexivity.
Qed.

(** [l[-1]] is the last element. *)
Lemma getitem_minus_one {A} (l : list A) (d : A) :
  l <> [] -> getitem l (-1) = Some (last l d).
Proof.
  intros Hl. unfold getitem, len.
  change (0 <=? -1)%Z with false. cbv iota.
  assert (0 < List.length l) by (destruct l; [now elim Hl | simpl; lia]).
  destruct (Z.leb_spec 0 (Z.of_nat (List.length l) + -1)) as [_|]; [|lia].
  replace (Z.to_nat (Z.of_nat (List.length l) + -1)) with (List.length l - 1) by lia.
  now apply nth_error_last.
Qed.

Lemma getitem_previous {A} (l : list A) (i : Z) :
  (0 <= i < len l)%Z -> exists x, getitem l (i - 1) = Some x.
Proof.
  intros Hi. destruct (Z.eq_dec i 0) as [->|Hne].
  - destruct l as [|a l]; [unfold len in Hi; simpl in Hi; lia|].
    exists (last (a :: l) a). now apply getitem_minus_one.
  - apply getitem_inside. lia.
Qed.

Lemma bind_done {A B} (m : M A) (k : A -> M B) w b w' :
  bind m k w = Done b w' ->
  exists a w1, m w = Done a w1 /\ k a w1 = Done b w'.
Proof.
  unfold bind. destruct (m w) as [a w1|ex w1|w1]; intros H; try discriminate.
  exists a, w1. split; [reflexivity | exact H].
Qed.

Lemma of_option_done {A} (ex : exn) (o : option A) w a w' :
  of_option ex o w = Done a w' -> o = Some a /\ w' = w.
Proof.
  destruct o as [x|]; simpl; unfold ret, raise; intros H; [|discriminate].
  injection H as -> ->. split; reflexivity.
Qed.

Lemma modify_done (f : world -> world) w u w' :
  modify f w = Done u w' -> w' = f w.
Proof. unfold modify. intros H. now injection H as <-. Qed.

Lemma ret_done {A} (a b : A) w w' : ret a w = Done b w' -> a = b /\ w' = w.
Proof. unfold ret. intros H. injection H as -> ->. split; reflexivity. Qed.

(** Reading a cursor that can be read. *)
Lemma read_index_done (w : world) (c : Z) :
  persisted w = Some c ->
  exists w0, read_index w = Done c w0
             /\ play_history_txt w0 = play_history_txt w
             /\ schedule_html w0 = schedule_html w
             /\ console w0 = console w
             /\ set_index 0 w0 = set_index 0 w.
Proof.
  unfold persisted, read_index. destruct (play_index_txt w) eqn:E; intros H;
    try discriminate; injection H as <-.
  - exists (set_index 0 w). repeat split.
  - exists w. repeat split.
Qed.

(** A turn that finds the cursor at or past the end of the playlist only
    writes 0 to the cursor file. *)
Lemma loop_wrap cfg e fuel (media_playlist : list string) (w : world) (c : Z) :
  persisted w = Some c -> (len media_playlist <= c)%Z ->
  loop cfg e fuel media_playlist w = Done tt (set_index 0 w).
Proof.
  intros Hp Hc. destruct (read_index_done w c Hp) as (w0 & Hread & _ & _ & _ & Hset).
  unfold loop, bind. rewrite Hread.
  destruct (Z.ltb_spec c (len media_playlist)); [lia|].
  unfold ret, modify. now rewrite Hset.
Qed.

(** A turn that ends normally leaves the cursor one further when it was
    inside the playlist, at 0 otherwise. *)
Lemma loop_done_index cfg e fuel (media_playlist : list string) (w w' : world) (c : Z) :
  persisted w = Some c ->
  loop cfg e fuel media_playlist w = Done tt w' ->
  play_index_txt w'
  = Holds (if (c <? len media_playlist)%Z then c + 1 else 0)%Z.
Proof.
  intros Hp H. destruct (read_index_done w c Hp) as (w0 & Hread & _).
  unfold loop in H.
  apply bind_done in H as (c' & w0' & Hread' & H).
  rewrite Hread in Hread'. injection Hread' as <- <-.
  apply bind_done in H as (next & w1 & Hbody & Hset).
  apply modify_done in Hset. subst w'. simpl. f_equal.
  destruct (c <? len media_playlist)%Z.
  - apply bind_done in Hbody as (f & w2 & _ & Hbody).
    apply bind_done in Hbody as (u1 & w3 & _ & Hbody).
    apply bind_done in Hbody as (u2 & w4 & _ & Hbody).
    apply bind_done in Hbody as (u3 & w5 & _ & Hbody).
    destruct (SCHEDULE_PATH cfg).
    + apply bind_done in Hbody as (prev & w6 & _ & Hbody).
      apply bind_done in Hbody as (u4 & w7 & _ & Hbody).
      apply bind_done in Hbody as (u5 & w8 & _ & Hbody).
      apply bind_done in Hbody as (u6 & w9 & _ & Hbody).
      apply ret_done in Hbody as [<- _]. reflexivity.
    + apply bind_done in Hbody as (u4 & w7 & _ & Hbody).
      apply ret_done in Hbody as [<- _]. reflexivity.
  - apply ret_done in Hbody as [<- _]. reflexivity.
Qed.

(** A turn with the schedule enabled that plays and ends normally: what
    it leaves behind. *)
Lemma loop_plays cfg e fuel (media_playlist : list string) (w w' : world)
      (c : Z) (sp : string) :
  persisted w = Some c -> (c < len media_playlist)%Z ->
  SCHEDULE_PATH cfg = Some sp ->
  loop cfg e fuel media_playlist w = Done tt w' ->
  exists video_file previous_file t,
    getitem media_playlist c = Some video_file
    /\ getitem media_playlist (c - 1) = Some previous_file
    /\ Forall gate_event t
    /\ play_index_txt w' = Holds (c + 1)
    /\ console w'
       = (console w ++ t ++
          [Print ("Now playing: " ++ video_file);
           Run (player_command cfg (path_join (BASE_PATH cfg) video_file));
           Spawn (media_copy cfg media_playlist c) previous_file])%list
    /\ schedule_html w'
       = match write_schedule cfg e (media_copy cfg media_playlist c) previous_file with
         | inl a => Some a
         | inr _ => schedule_html w
         end.
Proof.
  intros Hp Hc Hs H.
  destruct (read_index_done w c Hp) as (w0 & Hread & _ & Hsch0 & Hcon0 & _).
  unfold loop in H.
  apply bind_done in H as (c' & w0' & Hread' & H).
  rewrite Hread in Hread'. injection Hread' as <- <-.
  apply bind_done in H as (next & w1 & Hbody & Hset).
  apply modify_done in Hset. subst w'.
  destruct (Z.ltb_spec c (len media_playlist)); [|lia].
  apply bind_done in Hbody as (f & w2 & Hf & Hbody).
  apply of_option_done in Hf as [Hf ->].
  apply bind_done in Hbody as (u1 & w3 & Hgate & Hbody).
  destruct u1. apply check_file_done in Hgate as (t & -> & Ht).
  apply bind_done in Hbody as (u2 & w4 & Hrec & Hbody).
  destruct (record_done cfg (now e) f (emits t w0)) as (w4' & Hrec' & _ & Hsch4 & Hcon4).
  rewrite Hrec' in Hrec. injection Hrec as _ <-.
  apply bind_done in Hbody as (u3 & w5 & Hprint & Hbody).
  apply modify_done in Hprint. subst w5.
  rewrite Hs in Hbody.
  apply bind_done in Hbody as (prev & w6 & Hprev & Hbody).
  apply of_option_done in Hprev as [Hprev ->].
  apply bind_done in Hbody as (u4 & w7 & Hrun & Hbody).
  apply modify_done in Hrun. subst w7.
  apply bind_done in Hbody as (u5 & w8 & Hspawn & Hbody).
  apply modify_done in Hspawn. subst w8.
  apply bind_done in Hbody as (u6 & w9 & Hsched & Hbody).
  apply modify_done in Hsched. subst w9.
  apply ret_done in Hbody as [<- ->].
  exists f, prev, t.
  split; [exact Hf|]. split; [exact Hprev|]. split; [exact Ht|].
  split; [reflexivity|]. split.
  - destruct (write_schedule cfg e (media_copy cfg media_playlist c) prev);
      simpl; rewrite Hcon4; simpl; rewrite Hcon0, <- !app_assoc; reflexivity.
  - destruct (write_schedule cfg e (media_copy cfg media_playlist c) prev);
      simpl; [reflexivity|]. now rewrite Hsch4; simpl.
Qed.

(** A turn whose file is there at the first check ends normally. *)
Lemma loop_completes cfg e fuel (media_playlist : list string) (w : world) (c : Z) :
  persisted w = Some c -> (0 <= c)%Z ->
  (forall video_file,
      getitem media_playlist c = Some video_file ->
      isfile e (path_join (BASE_PATH cfg) video_file) 0 = true) ->
  exists w', loop cfg e (S fuel) media_playlist w = Done tt w'.
Proof.
  intros Hp Hc Hfile.
  destruct (Z.ltb_spec c (len media_playlist)) as [Hlt|Hge].
  - destruct (read_index_done w c Hp) as (w0 & Hread & _).
    destruct (getitem_inside media_playlist c) as (f & Hf); [lia|].
    destruct (getitem_previous media_playlist c) as (prev & Hprev); [lia|].
    unfold loop. unfold bind at 1. rewrite Hread.
    destruct (Z.ltb_spec c (len media_playlist)); [|lia].
    match goal with
    | |- exists w', bind ?body ?k w0 = _ =>
        assert (Hbody : exists w9, body w0 = Done (c + 1)%Z w9)
    end.
    { rewrite Hf. unfold bind at 1. cbn [of_option]. unfold ret at 1.
      unfold bind at 1. rewrite check_file_present by now apply Hfile.
      unfold bind at 1.
      destruct (record_done cfg (now e) f
                  (emits [IsFile (path_join (BASE_PATH cfg) f) true] w0))
        as (w4 & -> & _).
      destruct (SCHEDULE_PATH cfg).
      - rewrite Hprev. unfold bind, modify, schedule_p, modify. simpl.
        eexists. reflexivity.
      - unfold bind, modify. simpl. eexists. reflexivity. }
    destruct Hbody as (w9 & Hbody). unfold bind at 1. rewrite Hbody.
    unfold modify. eexists. reflexivity.
  - exists (set_index 0 w). now apply loop_wrap with c.
Qed.

Lemma getitem_In {A} (l : list A) (i : Z) (x : A) : getitem l i = Some x -> In x l.
Proof.
  unfold getitem. destruct (0 <=? i)%Z; [apply nth_error_In|].
  destruct (0 <=? len l + i)%Z; [apply nth_error_In | discriminate].
Qed.

Lemma persisted_Holds (w : world) (n : Z) :
  play_index_txt w = Holds n -> persisted w = Some n.
Proof. unfold persisted. now intros ->. Qed.

(** Counting modulo [L + 1]: one step of the cursor. *)
Lemma cursor_step (n L : Z) :
  (0 <= n)%Z -> (0 <= L)%Z ->
  (if (n mod (L + 1) <? L)%Z then n mod (L + 1) + 1 else 0)%Z
  = ((n + 1) mod (L + 1))%Z.
Proof.
  intros Hn HL.
  pose proof (Z.mod_pos_bound n (L + 1) ltac:(lia)) as Hb.
  pose proof (Z.div_mod n (L + 1) ltac:(lia)) as Hd.
  destruct (Z.ltb_spec (n mod (L + 1)) L) as [Hlt|Hge].
  - apply Z.mod_unique with (q := (n / (L + 1))%Z); lia.
  - apply Z.mod_unique with (q := (n / (L + 1) + 1)%Z); lia.
Qed.

Lemma run_done_index cfg envs fuel (media_playlist : list string) (cycles : nat) :
  forall w w',
    persisted w = Some 0%Z ->
    run cfg envs fuel media_playlist cycles w = Done tt w' ->
    persisted w' = Some (Z.of_nat cycles mod (len media_playlist + 1))%Z.
Proof.
  induction cycles as [|n IH]; intros w w' Hp H.
  - simpl in H. apply ret_done in H as [_ ->]. rewrite Hp.
    rewrite Z.mod_0_l; [reflexivity | unfold len; lia].
  - simpl in H. apply bind_done in H as (u & w1 & Hrun & Hloop).
    destruct u. specialize (IH w w1 Hp Hrun).
    apply persisted_Holds.
    rewrite (loop_done_index _ _ _ _ _ _ _ IH Hloop). f_equal.
    replace (Z.of_nat (S n)) with (Z.of_nat n + 1)%Z by lia.
    apply cursor_step; unfold len; lia.
Qed.

Lemma run_completes cfg envs fuel (media_playlist : list string) (cycles : nat) :
  forall w,
    persisted w = Some 0%Z ->
    (forall n video_file,
        In video_file media_playlist ->
        isfile (envs n) (path_join (BASE_PATH cfg) video_file) 0 = true) ->
    exists w', run cfg envs (S fuel) media_playlist cycles w = Done tt w'.
Proof.
  induction cycles as [|n IH]; intros w Hp Hfiles.
  - exists w. reflexivity.
  - destruct (IH w Hp Hfiles) as (w1 & Hrun).
    pose proof (run_done_index _ _ _ _ _ _ _ Hp Hrun) as Hp1.
    destruct (loop_completes cfg (envs n) fuel media_playlist w1 _ Hp1) as (w' & Hloop).
    + apply Z.mod_pos_bound. unfold len; lia.
    + intros f Hf. apply Hfiles. now apply getitem_In in Hf.
    + exists w'. simpl. unfold bind. rewrite Hrun. exact Hloop.
Qed.

Lemma bind_assoc {A B C} (m : M A) (k : A -> M B) (h : B -> M C) (w : world) :
  bind (bind m k) h w = bind m (fun a => bind (k a) h) w.
Proof. unfold bind. now destruct (m w). Qed.

(** Stopping the process after [a] turns and starting it again for [b]
    more is the same as [a + b] turns in one go. *)
Lemma run_restart cfg envs fuel (media_playlist : list string) (a b : nat) (w : world) :
  run cfg envs fuel media_playlist (a + b) w
  = bind (run cfg envs fuel media_playlist a)
         (fun _ => run cfg (fun n => envs (a + n)) fuel media_playlist b) w.
Proof.
  induction b as [|b IH].
  - rewrite Nat.add_0_r. simpl. unfold bind, ret.
    now destruct (run cfg envs fuel media_playlist a w) as [[] ?| |].
  - replace (a + S b) with (S (a + b)) by lia. cbn [run].
    rewrite <- bind_assoc. unfold bind at 1. rewrite IH.
    unfold bind at 3. reflexivity.
Qed.

(** C1, as stated, fails: on a playlist of one entry the turn that plays
    it persists 1, not 0, and one completed turn after cursor 0 leaves 1
    where [1 mod 1] is 0. *)
Lemma cursor_reaches_playlist_length :
  play_index_txt (final (loop Sample.shipped (Sample.calm 0) 1 ["A.mp4"]
                           (Sample.at_cursor 0)))
  = Holds 1
  /\ play_index_txt (final (run Sample.shipped (fun _ => Sample.calm 0) 1 ["A.mp4"] 1
                              Sample.fresh))
     <> Holds (1 mod len ["A.mp4"]).
Proof. split; [reflexivity | discriminate]. Qed.

(** C1, amended. A turn of [loop] that ends normally persists
    [cursor + 1] when [cursor < L] (so [L] itself is persisted after the
    last entry) and 0 otherwise; from cursor 0, after [C] turns that ended
    normally the persisted cursor is [C mod (L + 1)], 0 when the playlist
    is empty; a restart of the process between two turns changes nothing,
    the turns before it and the turns after it making up the same run;
    and the turns do end normally when every entry is there at its first
    check. *)
Theorem cursor_advancement cfg envs fuel (media_playlist : list string) :
  (forall e w w' c,
      persisted w = Some c ->
      loop cfg e fuel media_playlist w = Done tt w' ->
      play_index_txt w'
      = Holds (if (c <? len media_playlist)%Z then c + 1 else 0)%Z)
  /\ (forall cycles w w',
         persisted w = Some 0%Z ->
         run cfg envs fuel media_playlist cycles w = Done tt w' ->
         persisted w' = Some (Z.of_nat cycles mod (len media_playlist + 1))%Z)
  /\ (forall a b w,
         run cfg envs fuel media_playlist (a + b) w
         = bind (run cfg envs fuel media_playlist a)
                (fun _ => run cfg (fun n => envs (a + n)) fuel media_playlist b) w)
  /\ (forall cycles w,
         persisted w = Some 0%Z ->
         (forall n video_file,
             In video_file media_playlist ->
             isfile (envs n) (path_join (BASE_PATH cfg) video_file) 0 = true) ->
         exists w', run cfg envs (S fuel) media_playlist cycles w = Done tt w').
Proof.
  split; [|split; [|split]].
  - intros e w w' c. apply loop_done_index.
  - intros cycles w w'. apply run_done_index.
  - intros a b w. apply run_restart.
  - intros cycles w. apply run_completes.
Qed.

(** C1 on three entries over nine turns from a fresh deployment. *)
Lemma cursor_advancement_witness :
  exists w',
    run Sample.shipped (fun _ => Sample.calm 0) 1 Sample.abc 9 Sample.fresh = Done tt w'
    /\ persisted w' = Some 1%Z.
Proof.
  destruct (cursor_advancement Sample.shipped (fun _ => Sample.calm 0) 0 Sample.abc)
    as (_ & _ & _ & Htotal).
  destruct (Htotal 9 Sample.fresh) as (w' & Hrun); [reflexivity | reflexivity |].
  exists w'. split; [exact Hrun|].
  destruct (cursor_advancement Sample.shipped (fun _ => Sample.calm 0) 1 Sample.abc)
    as (_ & Hmod & _).
  apply (Hmod 9 Sample.fresh w'); [reflexivity | exact Hrun].
Defined.

(** C3, as stated, fails: with one entry and the cursor at 1 the turn
    checks no file, writes no history, starts no player; it only resets
    the cursor. *)
Lemma wrap_cycle_plays_nothing :
  loop Sample.shipped (Sample.calm 0) 1 ["A.mp4"] (Sample.at_cursor 1)
  = Done tt (Sample.at_cursor 0)
  /\ played (console (final (loop Sample.shipped (Sample.calm 0) 1 ["A.mp4"]
                               (Sample.at_cursor 1))))
     = [].
Proof. split; reflexivity. Qed.

(** C3, amended. For every playlist, empty or not, a turn that begins
    with the cursor at or past the end resolves and plays nothing: it
    ends normally having written 0 to the cursor file and nothing else
    (no check, no history record, no schedule, no player). *)
Theorem wrap_cycle_only_resets cfg e fuel (media_playlist : list string)
        (w : world) (c : Z) :
  persisted w = Some c -> (len media_playlist <= c)%Z ->
  exists w',
    loop cfg e fuel media_playlist w = Done tt w'
    /\ play_index_txt w' = Holds 0
    /\ console w' = console w
    /\ play_history_txt w' = play_history_txt w
    /\ schedule_html w' = schedule_html w.
Proof.
  intros Hp Hc. exists (set_index 0 w).
  split; [now apply loop_wrap with c | repeat split].
Qed.

(** C3 on three entries with the cursor at 3, and on the empty playlist. *)
Lemma wrap_cycle_only_resets_witness :
  (exists w',
      loop Sample.shipped (Sample.calm 0) 1 Sample.abc (Sample.at_cursor 3) = Done tt w'
      /\ play_index_txt w' = Holds 0
      /\ console w' = console (Sample.at_cursor 3)
      /\ play_history_txt w' = play_history_txt (Sample.at_cursor 3)
      /\ schedule_html w' = schedule_html (Sample.at_cursor 3))
  /\ (exists w',
         loop Sample.shipped (Sample.calm 0) 1 [] Sample.fresh = Done tt w'
         /\ play_index_txt w' = Holds 0
         /\ console w' = console Sample.fresh
         /\ play_history_txt w' = play_history_txt Sample.fresh
         /\ schedule_html w' = schedule_html Sample.fresh).
Proof.
  split.
  - apply (wrap_cycle_only_resets Sample.shipped (Sample.calm 0) 1 Sample.abc
             (Sample.at_cursor 3) 3); [reflexivity | unfold len; simpl; lia].
  - apply (wrap_cycle_only_resets Sample.shipped (Sample.calm 0) 1 []
             Sample.fresh 0); [reflexivity | unfold len; simpl; lia].
Defined.

(** ** The slice handed to the schedule *)

Section Cycling.
Context {A : Type}.
Variable d : A.

Lemma seq_offset (a n : nat) : seq a n = map (fun k => a + k) (seq 0 n).
Proof.
  revert a; induction n as [|n IH]; intros a; [reflexivity|].
  simpl. rewrite Nat.add_0_r. f_equal.
  rewrite (IH (S a)), (IH 1), map_map. apply map_ext. intros k. lia.
Qed.

Lemma firstn_seq (n a m : nat) : firstn n (seq a m) = seq a (Nat.min n m).
Proof.
  revert a m; induction n as [|n IH]; intros a m; [reflexivity|].
  destruct m as [|m]; [reflexivity|]. simpl. now rewrite IH.
Qed.

Lemma skipn_nth (l : list A) (j : nat) :
  j < List.length l -> skipn j l = nth j l d :: skipn (S j) l.
Proof.
  revert j; induction l as [|x l IH]; intros j Hj; [simpl in Hj; lia|].
  destruct j as [|j]; [reflexivity|].
  simpl in Hj. apply (IH j). lia.
Qed.

(** The rest of a list from position [j], by index. *)
Lemma skipn_by_index (l : list A) (j : nat) :
  j <= List.length l ->
  skipn j l = map (fun k => nth (j + k) l d) (seq 0 (List.length l - j)).
Proof.
  remember (List.length l - j) as n eqn:Hn. revert j Hn.
  induction n as [|n IH]; intros j Hn Hj.
  - simpl. apply skipn_all2. lia.
  - rewrite skipn_nth by lia. cbn [seq map]. rewrite Nat.add_0_r. f_equal.
    rewrite (IH (S j)) by lia.
    rewrite (seq_offset 1), map_map. apply map_ext. intros k. f_equal. lia.
Qed.

(** [islice(cycle(l), n)] taken up in the middle of a pass, by index. *)
Lemma cycle_go_by_index (l : list A) (n : nat) :
  forall j,
    l <> [] -> j <= List.length l ->
    cycle_go l (skipn j l) n
    = map (fun k => nth ((j + k) mod List.length l) l d) (seq 0 n).
Proof.
  induction n as [|n IH]; intros j Hl Hj; [reflexivity|].
  assert (0 < List.length l) by (destruct l; [now elim Hl | simpl; lia]).
  cbn [seq map]. rewrite (seq_offset 1), map_map.
  destruct (Nat.eq_dec j (List.length l)) as [->|Hne].
  - rewrite skipn_all. cbn [cycle_go].
    destruct l as [|x l']; [now elim Hl|].
    change l' with (skipn 1 (x :: l')) at 2.
    rewrite (IH 1) by (simpl; lia || discriminate).
    rewrite Nat.add_0_r, Nat.Div0.mod_same. f_equal.
    apply map_ext. intros k. f_equal.
    replace (List.length (x :: l') + (1 + k)) with ((1 + k) + 1 * List.length (x :: l')) by lia.
    now rewrite Nat.Div0.mod_add.
  - rewrite skipn_nth by lia. cbn [cycle_go].
    rewrite (IH (S j)) by (assumption || lia).
    rewrite Nat.add_0_r, Nat.mod_small by lia. f_equal.
    apply map_ext. intros k. f_equal. f_equal. lia.
Qed.
End Cycling.

(** Away from the case where exactly [SCHEDULE_UPCOMING_LENGTH] entries
    are left, the slice handed to [write_schedule] is the entry under the
    cursor followed by the next [SCHEDULE_UPCOMING_LENGTH] entries, the
    playlist being taken up again from its start as often as needed. *)
Lemma media_copy_by_index cfg (media_playlist : list string) (c : Z) :
  (0 <= c < len media_playlist)%Z ->
  (0 <= SCHEDULE_UPCOMING_LENGTH cfg)%Z ->
  (len media_playlist - c <> SCHEDULE_UPCOMING_LENGTH cfg)%Z ->
  media_copy cfg media_playlist c
  = map (fun k => nth ((Z.to_nat c + k) mod List.length media_playlist)
                      media_playlist EmptyString)
        (seq 0 (Z.to_nat (SCHEDULE_UPCOMING_LENGTH cfg) + 1)).
Proof.
  intros Hc HM Hne. unfold media_copy, slice_from, slice_to.
  set (M := SCHEDULE_UPCOMING_LENGTH cfg) in *.
  set (L := List.length media_playlist).
  assert (Hl : media_playlist <> []).
  { intros ->. unfold len in Hc. simpl in Hc. lia. }
  assert (Hclamp : clamp media_playlist c = Z.to_nat c).
  { unfold clamp, len in *. destruct (Z.leb_spec 0 c); lia. }
  rewrite Hclamp.
  assert (Hlen : len (skipn (Z.to_nat c) media_playlist)
                 = (len media_playlist - c)%Z).
  { unfold len in *. rewrite length_skipn. lia. }
  rewrite Hlen.
  rewrite (skipn_by_index EmptyString) by (unfold len in Hc; lia).
  fold L.
  destruct (Z.leb_spec M (len media_playlist - c)) as [Hle|Hgt].
  - unfold clamp. destruct (Z.leb_spec 0 (M + 1)); [|lia].
    rewrite length_map, length_seq, firstn_map, firstn_seq.
    replace (Nat.min (Nat.min (Z.to_nat (M + 1)) (L - Z.to_nat c)) (L - Z.to_nat c))
      with (Z.to_nat M + 1) by (unfold len, L in *; lia).
    apply map_ext_in. intros k Hk. apply in_seq in Hk.
    rewrite Nat.mod_small; [reflexivity | unfold len, L in *; lia].
  - unfold islice_cycle. change media_playlist with (skipn 0 media_playlist) at 3.
    rewrite (cycle_go_by_index EmptyString) by (assumption || lia). fold L.
    replace (Z.to_nat M + 1)
      with ((L - Z.to_nat c) + Z.to_nat (M - (len media_playlist - c) + 1))
      by (unfold len, L in *; lia).
    rewrite seq_app, map_app. f_equal.
    + apply map_ext_in. intros k Hk. apply in_seq in Hk.
      rewrite Nat.mod_small; [reflexivity | unfold len, L in *; lia].
    + rewrite (seq_offset (0 + (L - Z.to_nat c))), map_map.
      apply map_ext. intros k. f_equal.
      replace (Z.to_nat c + (0 + (L - Z.to_nat c) + k)) with (0 + k + 1 * L)
        by (unfold len, L in *; lia).
      now rewrite Nat.Div0.mod_add.
Qed.

(** ** Timeline Projector *)

Section Projection.
Variable cfg : config.
Variable e : env.

Lemma project_timeline (duration : string -> Z) (file_list : list string) :
  forall next_time coming_up_next,
    probed cfg e duration file_list ->
    project cfg e file_list next_time coming_up_next
    = inl (coming_up_next ++ timeline duration file_list next_time)%list.
Proof.
  induction file_list as [|f file_list IH]; intros t acc Hp.
  - simpl. now rewrite app_nil_r.
  - destruct (Hp f (or_introl eq_refl)) as [Hne Hfl].
    cbn [project timeline]. unfold get_length.
    apply String.eqb_neq in Hne. rewrite Hne, Hfl.
    rewrite IH; [now rewrite <- app_assoc|].
    intros g Hg. apply Hp. now right.
Qed.

Lemma timeline_length (duration : string -> Z) (file_list : list string) :
  forall next_time,
    List.length (timeline duration file_list next_time) = List.length file_list.
Proof.
  induction file_list as [|f file_list IH]; intros t; simpl; [reflexivity|].
  now rewrite IH.
Qed.

(** A probe that prints nothing for one of the files ends the projection
    with a probe error. *)
Lemma project_probe_error (file_list : list string) :
  forall next_time coming_up_next,
    (exists filename,
        In filename file_list
        /\ ffprobe e (path_join (BASE_PATH cfg) filename) = EmptyString) ->
    exists ex, project cfg e file_list next_time coming_up_next = inr ex
               /\ ProbeError ex.
Proof.
  induction file_list as [|f file_list IH]; intros t acc (g & Hin & Hg).
  - destruct Hin.
  - cbn [project]. unfold get_length.
    destruct (String.eqb_spec (ffprobe e (path_join (BASE_PATH cfg) f)) EmptyString)
      as [Hf|Hf].
    + eexists. split; [reflexivity|]. right. eexists. reflexivity.
    + destruct (float_seconds e (ffprobe e (path_join (BASE_PATH cfg) f))).
      * apply IH. exists g. split; [|exact Hg].
        destruct Hin as [->|Hin]; [contradiction | exact Hin].
      * eexists. split; [reflexivity|]. now left.
Qed.
End Projection.

Lemma media_copy_entries cfg (media_playlist : list string) (c : Z) :
  (0 <= c < len media_playlist)%Z ->
  (0 <= SCHEDULE_UPCOMING_LENGTH cfg)%Z ->
  (len media_playlist - c <> SCHEDULE_UPCOMING_LENGTH cfg)%Z ->
  forall filename,
    In filename (media_copy cfg media_playlist c) -> In filename media_playlist.
Proof.
  intros Hc HM Hne f Hf. rewrite media_copy_by_index in Hf by assumption.
  apply in_map_iff in Hf as (k & <- & _). apply nth_In.
  apply Nat.mod_upper_bound. unfold len in Hc. lia.
Qed.

(** When exactly [SCHEDULE_UPCOMING_LENGTH] entries are left, the test of
    line 210 takes the first branch and the slice of line 211 finds no
    entry beyond them: the slice is one short. *)
Lemma media_copy_when_exactly_enough_left :
  media_copy (Sample.with_upcoming 2 Sample.shipped) Sample.abc 1
  = ["B.mp4"; "C.mp4"].
Proof. reflexivity. Qed.

(** C2, as stated, fails: for the playlist A (30 s), B (20 s), C (10 s),
    the cursor at 1 and four upcoming items the schedule has five items,
    the one being played and the four after it. Times are microseconds,
    the anchor is 1000. *)
Lemma schedule_has_one_more_item :
  project (Sample.with_upcoming 4 Sample.shipped) (Sample.calm 1000)
    (media_copy (Sample.with_upcoming 4 Sample.shipped) Sample.abc 1) 1000 []
  = inl [(1000, "B"); (20001000, "C"); (30001000, "A"); (60001000, "B");
         (80001000, "C")]%Z
  /\ project (Sample.with_upcoming 4 Sample.shipped) (Sample.calm 1000)
       (media_copy (Sample.with_upcoming 4 Sample.shipped) Sample.abc 1) 1000 []
     <> inl [(1000, "B"); (20001000, "C"); (30001000, "A"); (60001000, "B")]%Z.
Proof. split; [reflexivity | discriminate]. Qed.

(** C2, amended. Unless exactly [M] entries are left from the cursor on,
    the slice handed to the projector holds [M + 1] entries: the entry
    under the cursor and the [M] entries after it, the playlist being
    taken up again from its start when it runs out; and when every probe
    succeeds the schedule has one item per entry of the slice, each
    starting when the one before it ends, the first at the anchor. *)
Theorem schedule_length_and_wrap cfg (media_playlist : list string) (c : Z) :
  (0 <= c < len media_playlist)%Z ->
  (0 <= SCHEDULE_UPCOMING_LENGTH cfg)%Z ->
  (len media_playlist - c <> SCHEDULE_UPCOMING_LENGTH cfg)%Z ->
  media_copy cfg media_playlist c
  = map (fun k => nth ((Z.to_nat c + k) mod List.length media_playlist)
                      media_playlist EmptyString)
        (seq 0 (Z.to_nat (SCHEDULE_UPCOMING_LENGTH cfg) + 1))
  /\ List.length (media_copy cfg media_playlist c)
     = Z.to_nat (SCHEDULE_UPCOMING_LENGTH cfg) + 1
  /\ forall e duration,
      probed cfg e duration media_playlist ->
      project cfg e (media_copy cfg media_playlist c) (utcnow e) []
      = inl (timeline duration (media_copy cfg media_playlist c) (utcnow e))
      /\ List.length (timeline duration (media_copy cfg media_playlist c) (utcnow e))
         = Z.to_nat (SCHEDULE_UPCOMING_LENGTH cfg) + 1.
Proof.
  intros Hc HM Hne.
  pose proof (media_copy_by_index cfg media_playlist c Hc HM Hne) as Heq.
  assert (Hlen : List.length (media_copy cfg media_playlist c)
                 = Z.to_nat (SCHEDULE_UPCOMING_LENGTH cfg) + 1).
  { rewrite Heq, length_map, length_seq. reflexivity. }
  split; [exact Heq|]. split; [exact Hlen|].
  intros e duration Hp. split.
  - rewrite (project_timeline cfg e duration); [reflexivity|].
    intros f Hf. apply Hp. now apply media_copy_entries with cfg c.
  - now rewrite timeline_length.
Qed.

(** C2 on the playlist A (30 s), B (20 s), C (10 s), the cursor at 1, four
    upcoming items and the anchor 1000. *)
Lemma schedule_length_and_wrap_witness :
  media_copy (Sample.with_upcoming 4 Sample.shipped) Sample.abc 1
  = ["B.mp4"; "C.mp4"; "A.mp4"; "B.mp4"; "C.mp4"]
  /\ project (Sample.with_upcoming 4 Sample.shipped) (Sample.calm 1000)
       (media_copy (Sample.with_upcoming 4 Sample.shipped) Sample.abc 1) 1000 []
     = inl [(1000, "B"); (20001000, "C"); (30001000, "A"); (60001000, "B");
            (80001000, "C")]%Z.
Proof.
  destruct (schedule_length_and_wrap (Sample.with_upcoming 4 Sample.shipped)
              Sample.abc 1) as (Hcopy & _ & Hproj).
  - unfold len; simpl; lia.
  - simpl; lia.
  - unfold len; simpl; lia.
  - split; [exact Hcopy|].
    destruct (Hproj (Sample.calm 1000) Sample.duration_abc) as [H _]; [|exact H].
    intros f [<-|[<-|[<-|[]]]]; split; try discriminate; reflexivity.
Defined.

(** C6. With the schedule enabled, when the probe prints nothing for one
    of the files of the slice, [write_schedule] ends with a probe error
    before anything is written; the turn still starts the player on the
    current entry, leaves the schedule artifact as it was and advances
    the cursor; and the turn does end normally when the entry is there at
    its first check. *)
Theorem probe_failure_is_isolated cfg e (media_playlist : list string)
        (w : world) (c : Z) (sp : string) :
  persisted w = Some c -> (0 <= c < len media_playlist)%Z ->
  SCHEDULE_PATH cfg = Some sp ->
  (exists filename,
      In filename (media_copy cfg media_playlist c)
      /\ ffprobe e (path_join (BASE_PATH cfg) filename) = EmptyString) ->
  (forall fuel w',
      loop cfg e fuel media_playlist w = Done tt w' ->
      exists video_file previous_file ex,
        getitem media_playlist c = Some video_file
        /\ getitem media_playlist (c - 1) = Some previous_file
        /\ write_schedule cfg e (media_copy cfg media_playlist c) previous_file
           = inr ex
        /\ ProbeError ex
        /\ schedule_html w' = schedule_html w
        /\ played (console w')
           = (played (console w)
              ++ [player_command cfg (path_join (BASE_PATH cfg) video_file)])%list
        /\ play_index_txt w' = Holds (c + 1))
  /\ (forall fuel,
         (forall video_file,
             getitem media_playlist c = Some video_file ->
             isfile e (path_join (BASE_PATH cfg) video_file) 0 = true) ->
         exists w', loop cfg e (S fuel) media_playlist w = Done tt w').
Proof.
  intros Hp Hc Hs Hempty. split.
  - intros fuel w' Hloop.
    destruct (loop_plays cfg e fuel media_playlist w w' c sp Hp ltac:(lia) Hs Hloop)
      as (f & prev & t & Hf & Hprev & Ht & Hidx & Hcon & Hsch).
    destruct (project_probe_error cfg e (media_copy cfg media_playlist c) (utcnow e) []
                Hempty) as (ex & Hproj & Hex).
    assert (Hws : write_schedule cfg e (media_copy cfg media_playlist c) prev = inr ex).
    { unfold write_schedule. now rewrite Hproj. }
    exists f, prev, ex.
    split; [exact Hf|]. split; [exact Hprev|]. split; [exact Hws|].
    split; [exact Hex|]. split; [now rewrite Hsch, Hws|]. split; [|exact Hidx].
    rewrite Hcon, !played_app.
    destruct (gate_event_spawned t Ht) as [_ ->]. reflexivity.
  - intros fuel Hfile. apply loop_completes with c; [exact Hp | lia | exact Hfile].
Qed.

(** C6 on a playlist whose second entry the probe cannot read. *)
Lemma probe_failure_is_isolated_witness :
  exists w',
    loop Sample.shipped (Sample.calm 0) 1 ["A.mp4"; "unreadable.mp4"]
      (Sample.at_cursor 0) = Done tt w'
    /\ schedule_html w' = None
    /\ played (console w')
       = [player_command Sample.shipped "/media/videos/A.mp4"]
    /\ play_index_txt w' = Holds 1.
Proof.
  destruct (probe_failure_is_isolated Sample.shipped (Sample.calm 0)
              ["A.mp4"; "unreadable.mp4"] (Sample.at_cursor 0) 0
              "/var/www/schedule.html") as [Hinv Htotal].
  - reflexivity.
  - unfold len; simpl; lia.
  - reflexivity.
  - exists "unreadable.mp4". split; [right; left; reflexivity | reflexivity].
  - destruct (Htotal 0) as (w' & Hloop).
    + intros f Hf. injection Hf as <-. reflexivity.
    + exists w'. split; [exact Hloop|].
      destruct (Hinv 1 w' Hloop)
        as (f & prev & ex & Hf & _ & _ & _ & Hsch & Hplayed & Hidx).
      injection Hf as <-.
      split; [exact Hsch|]. split; [exact Hplayed | exact Hidx].
Defined.

(** ** The previous entry *)

Lemma normalize_entries_not_empty (source : list string) (x : string) :
  In x (normalize source) -> x <> EmptyString.
Proof.
  unfold normalize. rewrite filter_In. intros [_ K].
  apply kept_iff in K. intros ->. apply K. now left.
Qed.

Lemma last_In {A} (l : list A) (d : A) : l <> [] -> In (last l d) l.
Proof.
  induction l as [|x l IH]; intros Hl; [now elim Hl|].
  destruct l as [|y l]; [now left|].
  right. apply IH. discriminate.
Qed.

(** C10. On a loaded playlist that is not empty, the turn at cursor 0, be
    it the very first of a deployment (no cursor file yet) or not, starts
    the schedule process with the last entry of the playlist as previous
    file, which is not the empty string; at any cursor inside the
    playlist the previous file handed over is an entry of the playlist
    and never empty; and the turn does end normally when the entry is
    there at its first check. *)
Theorem previous_at_cursor_zero cfg e (source : list string) (w : world)
        (sp : string) :
  SCHEDULE_PATH cfg = Some sp -> normalize source <> [] ->
  persisted w = Some 0%Z ->
  (forall fuel w',
      loop cfg e fuel (normalize source) w = Done tt w' ->
      spawned (console w')
      = (spawned (console w)
         ++ [(media_copy cfg (normalize source) 0,
              last (normalize source) EmptyString)])%list)
  /\ last (normalize source) EmptyString <> EmptyString
  /\ (forall c w0 fuel w',
         persisted w0 = Some c -> (0 <= c < len (normalize source))%Z ->
         loop cfg e fuel (normalize source) w0 = Done tt w' ->
         exists previous_file,
           spawned (console w')
           = (spawned (console w0)
              ++ [(media_copy cfg (normalize source) c, previous_file)])%list
           /\ In previous_file (normalize source)
           /\ previous_file <> EmptyString)
  /\ (forall fuel,
         (forall video_file,
             getitem (normalize source) 0 = Some video_file ->
             isfile e (path_join (BASE_PATH cfg) video_file) 0 = true) ->
         exists w', loop cfg e (S fuel) (normalize source) w = Done tt w').
Proof.
  intros Hs Hne Hp.
  assert (Hany : forall c w0 fuel w',
             persisted w0 = Some c -> (0 <= c < len (normalize source))%Z ->
             loop cfg e fuel (normalize source) w0 = Done tt w' ->
             exists previous_file,
               getitem (normalize source) (c - 1) = Some previous_file
               /\ spawned (console w')
                  = (spawned (console w0)
                     ++ [(media_copy cfg (normalize source) c, previous_file)])%list).
  { intros c w0 fuel w' Hp0 Hc Hloop.
    destruct (loop_plays cfg e fuel (normalize source) w0 w' c sp Hp0 ltac:(lia) Hs Hloop)
      as (f & prev & t & _ & Hprev & Ht & _ & Hcon & _).
    exists prev. split; [exact Hprev|].
    rewrite Hcon, !spawned_app.
    destruct (gate_event_spawned t Ht) as [-> _]. reflexivity. }
  assert (Hlen : (0 <= 0 < len (normalize source))%Z).
  { unfold len. destruct (normalize source); [now elim Hne | simpl; lia]. }
  split; [|split; [|split]].
  - intros fuel w' Hloop.
    destruct (Hany 0%Z w fuel w' Hp Hlen Hloop) as (prev & Hprev & Hsp).
    change (0 - 1)%Z with (-1)%Z in Hprev.
    rewrite (getitem_minus_one _ EmptyString Hne) in Hprev.
    injection Hprev as <-. exact Hsp.
  - apply normalize_entries_not_empty with source. now apply last_In.
  - intros c w0 fuel w' Hp0 Hc Hloop.
    destruct (Hany c w0 fuel w' Hp0 Hc Hloop) as (prev & Hprev & Hsp).
    exists prev. split; [exact Hsp|].
    apply getitem_In in Hprev. split; [exact Hprev|].
    now apply normalize_entries_not_empty with source.
  - intros fuel Hfile. apply loop_completes with 0%Z; [exact Hp | lia | exact Hfile].
Qed.

(** C10 on the first turn of a fresh deployment over three entries. *)
Lemma previous_at_cursor_zero_witness :
  exists w',
    loop Sample.shipped (Sample.calm 0) 1 (normalize Sample.abc) Sample.fresh
    = Done tt w'
    /\ spawned (console w')
       = [(media_copy Sample.shipped (normalize Sample.abc) 0, "C.mp4")].
Proof.
  destruct (previous_at_cursor_zero Sample.shipped (Sample.calm 0) Sample.abc
              Sample.fresh "/var/www/schedule.html")
    as (Hspawn & _ & _ & Htotal).
  - reflexivity.
  - discriminate.
  - reflexivity.
  - destruct (Htotal 0) as (w' & Hloop); [reflexivity|].
    exists w'. split; [exact Hloop | exact (Hspawn 1 w' Hloop)].
Defined.

(** ** Display names *)

Lemma length_append (a b : string) :
  String.length (a ++ b) = String.length a + String.length b.
Proof. induction a as [|x a IH]; simpl; [reflexivity | now rewrite IH]. Qed.

Lemma substring_all (s : string) : substring 0 (String.length s) s = s.
Proof. induction s as [|x s IH]; simpl; [reflexivity | now rewrite IH]. Qed.

Lemma substring_prefix (a b : string) : substring 0 (String.length a) (a ++ b) = a.
Proof.
  induction a as [|x a IH]; simpl; [now destruct b | now rewrite IH].
Qed.

Lemma substring_suffix (a b : string) :
  substring (String.length a) (String.length (a ++ b) - String.length a) (a ++ b) = b.
Proof.
  induction a as [|x a IH]; simpl.
  - rewrite Nat.sub_0_r. apply substring_all.
  - exact IH.
Qed.

Lemma rfind_absent (c : ascii) (s : string) : has_char c s = false -> rfind c s = None.
Proof.
  induction s as [|a s IH]; simpl; [reflexivity|].
  intros H. apply orb_false_iff in H as [Ha Hs]. now rewrite IH, Ha.
Qed.

Lemma rfind_app_absent (c : ascii) (a b : string) :
  has_char c b = false -> rfind c (a ++ b) = rfind c a.
Proof.
  intros Hb. induction a as [|x a IH]; simpl.
  - now apply rfind_absent.
  - now rewrite IH.
Qed.

Lemma rfind_app_present (c : ascii) (a b : string) :
  has_char c b = false -> rfind c (a ++ String c b) = Some (String.length a).
Proof.
  intros Hb. induction a as [|x a IH]; simpl.
  - rewrite rfind_absent by exact Hb. now rewrite Ascii.eqb_refl.
  - now rewrite IH.
Qed.

Lemma rfind_lt (c : ascii) (s : string) (i : nat) :
  rfind c s = Some i -> i < String.length s.
Proof.
  revert i; induction s as [|a s IH]; intros i; simpl; [discriminate|].
  destruct (rfind c s) as [j|].
  - intros H. injection H as <-. specialize (IH j eq_refl). lia.
  - destruct (Ascii.eqb a c); [|discriminate].
    intros H. injection H as <-. lia.
Qed.

Lemma filename_index_le (p : string) : filename_index p <= String.length p.
Proof.
  unfold filename_index. destruct (rfind slash p) as [i|] eqn:E; [|lia].
  apply rfind_lt in E. lia.
Qed.

Lemma has_non_dot_app (p q : string) :
  forall from upto,
    upto <= String.length p ->
    has_non_dot (p ++ q) from upto = has_non_dot p from upto.
Proof.
  induction p as [|a p IH]; intros from upto H; simpl in H.
  - assert (upto = 0) as -> by lia. simpl. now destruct q, from.
  - destruct upto as [|upto]; [now destruct from|].
    destruct from as [|from]; simpl.
    + destruct (Ascii.eqb a dot); [apply IH; lia | reflexivity].
    + apply IH. lia.
Qed.

(** The extension is what follows the last dot of the last component,
    when that component has something else than dots before it. *)
Lemma splitext_extension (stem ext : string) :
  has_char dot ext = false -> has_char slash ext = false ->
  has_non_dot stem (filename_index stem) (String.length stem) = true ->
  splitext (stem ++ "." ++ ext) = (stem, "." ++ ext).
Proof.
  intros Hdot Hslash Hstem. unfold splitext.
  change ("." ++ ext) with (String dot ext).
  rewrite rfind_app_present by exact Hdot.
  assert (Hfi : filename_index (stem ++ String dot ext) = filename_index stem).
  { unfold filename_index. rewrite rfind_app_absent; [reflexivity|].
    simpl. exact Hslash. }
  rewrite Hfi, has_non_dot_app by lia. rewrite Hstem.
  pose proof (filename_index_le stem) as Hle.
  apply Nat.leb_le in Hle. rewrite Hle. simpl andb. cbv iota.
  now rewrite substring_prefix, substring_suffix.
Qed.

Lemma replace_char_absent (old : ascii) (new s : string) :
  has_char old new = false -> has_char old (replace_char old new s) = false.
Proof.
  intros Hnew. induction s as [|a s IH]; simpl; [reflexivity|].
  rewrite has_char_app, IH, orb_false_r.
  destruct (Ascii.eqb a old) eqn:E; [exact Hnew|].
  simpl. now rewrite E.
Qed.

Lemma strip_no_backslash (filename : string) :
  has_char backslash (strip filename) = false.
Proof. unfold strip. now apply replace_char_absent. Qed.

Lemma escape_well_escaped (n : string) :
  has_char backslash n = false -> well_escaped (escape n) = true.
Proof.
  unfold escape. induction n as [|a n IH]; simpl; [reflexivity|].
  intros H. apply orb_false_iff in H as [Ha Hn].
  destruct (Ascii.eqb a quote) eqn:E.
  - simpl. now apply IH.
  - simpl. rewrite Ha, E. simpl. now apply IH.
Qed.

(** The names of a schedule are the stripped entries, in order. *)
Lemma project_names cfg e (file_list : list string) :
  forall next_time coming_up_next r,
    project cfg e file_list next_time coming_up_next = inl r ->
    exists times,
      List.length times = List.length file_list
      /\ r = (coming_up_next ++ combine times (map strip file_list))%list.
Proof.
  induction file_list as [|f file_list IH]; intros t acc r H.
  - simpl in H. injection H as <-. exists []. split; [reflexivity|].
    simpl. now rewrite app_nil_r.
  - cbn [project] in H.
    destruct (get_length e (path_join (BASE_PATH cfg) f)); [|discriminate].
    destruct (float_seconds e s) as [dur|]; [|discriminate].
    apply IH in H as (times & Hlen & ->).
    exists (t :: times). split; [simpl; now rewrite Hlen|].
    simpl. now rewrite <- app_assoc.
Qed.

(** The previous item's name is stripped and its separators normalised,
    but its single quote is left as it is, where the same entry as an
    upcoming item gets a backslash before the quote. *)
Lemma previous_name_is_not_escaped :
  write_schedule Sample.shipped (Sample.calm 0) ["A.mp4"] "it's.mp4"
  = inl (Artifact "[{time:'t0',name:'A'}]" "it's")
  /\ escape (strip "it's.mp4") = "it\'s"
  /\ well_escaped "it's" = false.
Proof. repeat split. Qed.


(** What the code does to names. In the artifact the name of every
    upcoming item is the entry with its extension removed, every
    backslash replaced by a forward slash and every single quote preceded
    by a backslash; the previous item's name has its extension removed
    and its backslashes replaced. The extension removed is what follows
    the last dot of the last component of the path as POSIX cuts it. *)
Theorem display_names cfg e :
  (forall file_list previous_file a,
      write_schedule cfg e file_list previous_file = inl a ->
      previous_name a
      = (if String.eqb previous_file EmptyString then EmptyString
         else strip previous_file)
      /\ exists times,
          List.length times = List.length file_list
          /\ js_array a
             = "[" ++ join ","
                        (map (fun item =>
                                "{time:'" ++ str_datetime e (fst item) ++ "',name:'"
                                  ++ escape (snd item) ++ "'}")
                             (combine times (map strip file_list)))
                   ++ "]")
  /\ (forall filename,
         has_char backslash (strip filename) = false
         /\ well_escaped (escape (strip filename)) = true)
  /\ (forall stem ext,
         has_char dot ext = false -> has_char slash ext = false ->
         has_non_dot stem (filename_index stem) (String.length stem) = true ->
         strip (stem ++ "." ++ ext) = replace_char backslash "/" stem).
Proof.
  split; [|split].
  - intros file_list previous_file a H. unfold write_schedule in H.
    destruct (project cfg e file_list (utcnow e) []) as [r|] eqn:Hproj;
      [|discriminate].
    injection H as <-. simpl. split.
    + destruct (String.eqb_spec previous_file EmptyString) as [->|_]; reflexivity.
    + apply project_names in Hproj as (times & Hlen & ->).
      exists times. split; [exact Hlen | reflexivity].
  - intros filename. split; [apply strip_no_backslash|].
    apply escape_well_escaped, strip_no_backslash.
  - intros stem ext Hdot Hslash Hstem. unfold strip.
    now rewrite splitext_extension.
Qed.

(** The same on an entry in a Windows-style folder with a quote in its
    name. *)
Lemma display_names_witness :
  strip ("shows\it's" ++ "." ++ "mp4") = "shows/it's"
  /\ escape (strip ("shows\it's" ++ "." ++ "mp4")) = "shows/it\'s".
Proof.
  destruct (display_names Sample.shipped (Sample.calm 0)) as (_ & _ & Hstrip).
  rewrite (Hstrip "shows\it's" "mp4"); [split; reflexivity | reflexivity ..].
Defined.

(* ================================================================== *)
(** * Further properties of the code *)

(** ** Playlist Loader *)

Lemma normalize_fixed (l : list string) :
  Forall (fun x => kept x = true) l -> normalize l = l.
Proof.
  induction 1 as [|x l Hx _ IH]; [reflexivity|].
  unfold normalize in *. simpl. now rewrite Hx, IH.
Qed.

Lemma normalize_kept (l : list string) : Forall (fun x => kept x = true) (normalize l).
Proof.
  apply Forall_forall. intros x Hx. unfold normalize in Hx.
  now apply filter_In in Hx.
Qed.

(** X1. Normalising a playlist that was already normalised changes
    nothing: loading is idempotent. *)
Theorem normalize_idempotent (media_playlist : list string) :
  normalize (normalize media_playlist) = normalize media_playlist.
Proof. apply normalize_fixed, normalize_kept. Qed.

Lemma splitlines_go_entry (x : string) :
  forall cur rest,
    one_line x = true ->
    splitlines_go false cur (x ++ String LF rest)
    = (cur ++ x) :: splitlines_go false EmptyString rest.
Proof.
  induction x as [|a x IH]; intros cur rest Hx; simpl.
  - now rewrite append_nil_r.
  - simpl in Hx. apply andb_true_iff in Hx as [Ha Hx].
    apply negb_true_iff in Ha. rewrite Ha.
    rewrite IH by exact Hx. now rewrite append_assoc.
Qed.

Lemma splitlines_one_per_line (entries : list string) :
  Forall (fun x => one_line x = true) entries ->
  splitlines (one_per_line entries) = entries.
Proof.
  unfold splitlines. induction 1 as [|x l Hx _ IH]; [reflexivity|].
  simpl. rewrite splitlines_go_entry by exact Hx. simpl. now rewrite IH.
Qed.

(** X2. A playlist file written with one entry per line loads to exactly
    those entries, in order, provided no entry holds a line boundary, is
    empty or begins with a comment mark. *)
Theorem playlist_file_round_trip (path : string) (entries : list string) :
  Forall (fun x => one_line x = true) entries ->
  Forall (fun x => kept x = true) entries ->
  load (FromFile path (Some (one_per_line entries))) = inl entries.
Proof.
  intros Hone Hkept. simpl.
  now rewrite splitlines_one_per_line, normalize_fixed.
Qed.

Lemma playlist_file_round_trip_witness :
  load (FromFile "/home/pi/list.txt"
          (Some (one_per_line ["a.mp4"; "shows/b.mp4"; " # kept, the mark is not first"])))
  = inl ["a.mp4"; "shows/b.mp4"; " # kept, the mark is not first"].
Proof.
  apply playlist_file_round_trip; repeat constructor.
Defined.

Lemma splitlines_go_one_line (s : string) :
  forall skip_lf cur x,
    one_line cur = true ->
    In x (splitlines_go skip_lf cur s) -> one_line x = true.
Proof.
  induction s as [|c s IH]; intros skip_lf cur x Hcur Hx; simpl in Hx.
  - destruct cur; [destruct Hx|]. destruct Hx as [<-|[]]. exact Hcur.
  - destruct (skip_lf && Ascii.eqb c LF); [now apply IH in Hx|].
    destruct (is_linebreak c) eqn:Hc.
    + destruct Hx as [<-|Hx]; [exact Hcur | now apply IH in Hx].
    + apply IH in Hx; [exact Hx|].
      clear - Hcur Hc. induction cur as [|a cur IHc]; simpl in *.
      * now rewrite Hc.
      * apply andb_true_iff in Hcur as [Ha Hcur]. rewrite Ha. now apply IHc.
Qed.

(** X3. Whatever the source, no entry of a loaded playlist is empty or
    begins with [;], [#] or [//]; and the entries of a playlist loaded
    from a text file hold no line boundary. *)
Theorem loaded_playlist_invariant (MEDIA_PLAYLIST : playlist_source)
        (media_playlist : list string) (x : string) :
  load MEDIA_PLAYLIST = inl media_playlist -> In x media_playlist ->
  ~ dropped x
  /\ (forall path text, MEDIA_PLAYLIST = FromFile path (Some text) ->
                        one_line x = true).
Proof.
  intros Hload Hx.
  assert (Hin : exists l, media_playlist = normalize l
                          /\ forall path text,
                              MEDIA_PLAYLIST = FromFile path (Some text) ->
                              l = splitlines text).
  { destruct MEDIA_PLAYLIST as [path [text|]|l|]; simpl in Hload;
      try discriminate; injection Hload as <-.
    - exists (splitlines text). split; [reflexivity|].
      intros p t H. now injection H as _ <-.
    - exists l. split; [reflexivity|]. intros p t H. discriminate. }
  destruct Hin as (l & -> & Htext).
  unfold normalize in Hx. apply filter_In in Hx as [Hx Hk]. split.
  - now apply kept_iff.
  - intros path text Hsrc. rewrite (Htext path text Hsrc) in Hx.
    now apply splitlines_go_one_line in Hx.
Qed.

Lemma loaded_playlist_invariant_witness :
  ~ dropped "b.mp4"
  /\ (forall path text,
         FromFile "/home/pi/list.txt"
           (Some ("# favourites" ++ chr CR ++ chr LF ++ "b.mp4" ++ chr NEL ++ "c.mp4"))
         = FromFile path (Some text) ->
         one_line "b.mp4" = true).
Proof.
  apply (loaded_playlist_invariant
           (FromFile "/home/pi/list.txt"
              (Some ("# favourites" ++ chr CR ++ chr LF ++ "b.mp4" ++ chr NEL ++ "c.mp4")))
           ["b.mp4"; "c.mp4"]).
  - reflexivity.
  - now left.
Defined.

(** ** Availability Gate *)

(** X4. Whatever its outcome (return, exception, still polling),
    [check_file] leaves the cursor file, the history and the schedule as
    they were, and adds nothing to the console but its checks, notices
    and sleeps: it starts no player and no schedule process. *)
Theorem check_file_only_polls cfg e path (fuel : nat) (w : world) :
  exists t,
    final (check_file cfg e path fuel w) = emits t w
    /\ Forall gate_event t
    /\ played t = [] /\ spawned t = [].
Proof.
  destruct (while_not_isfile_emits cfg e path fuel
              (Locals (RETRY_ATTEMPTS cfg)
                      (if (RETRY_ATTEMPTS cfg <? 0)%Z then Some EmptyString else None) 0) w)
    as (t & Ht & Hev).
  exists t. split; [exact Ht|]. split; [exact Hev|].
  destruct (gate_event_spawned t Hev) as [Hs Hp]. split; assumption.
Qed.

Lemma total_repeat (d : Z) (k : nat) : total (repeat d k) = (Z.of_nat k * d)%Z.
Proof.
  induction k as [|k IH]; [reflexivity|].
  cbn [repeat total fold_right]. fold (total (repeat d k)). rewrite IH. lia.
Qed.

(** X5. With [n >= 0] retries the gate always ends within [n + 1] checks:
    it returns at the first check that finds the path, having slept the
    period once per failed check before it, and raises the not-found
    exception exactly when all [n + 1] checks fail, after [n] sleeps,
    [n] times the period in all. *)
Theorem gate_ends_within_retries cfg e path (w : world) (fuel : nat) :
  (0 <= RETRY_ATTEMPTS cfg)%Z -> (0 <= RETRY_PERIOD cfg)%Z ->
  Z.to_nat (RETRY_ATTEMPTS cfg) < fuel ->
  exists t k,
    k <= Z.to_nat (RETRY_ATTEMPTS cfg)
    /\ checks t = S k
    /\ slept t = repeat (RETRY_PERIOD cfg) k
    /\ total (slept t) = (Z.of_nat k * RETRY_PERIOD cfg)%Z
    /\ (forall j, j < k -> isfile e path j = false)
    /\ ((isfile e path k = true
         /\ check_file cfg e path fuel w = Done tt (emits t w))
        \/ (isfile e path k = false
            /\ k = Z.to_nat (RETRY_ATTEMPTS cfg)
            /\ check_file cfg e path fuel w
               = Raised (FileNotFoundError path) (emits t w))).
Proof.
  intros Hr Hd Hfuel. unfold check_file.
  destruct (first_hit (isfile e path) (Z.to_nat (RETRY_ATTEMPTS cfg)))
    as [(k & Hk & Hhit & Hmiss)|Hall].
  - exists (countdown_trace cfg path (RETRY_ATTEMPTS cfg) k ++ [IsFile path true])%list, k.
    split; [exact Hk|].
    split; [rewrite checks_app, countdown_trace_checks; unfold checks; simpl; lia|].
    assert (Hs : slept (countdown_trace cfg path (RETRY_ATTEMPTS cfg) k
                          ++ [IsFile path true])
                 = repeat (RETRY_PERIOD cfg) k).
    { rewrite slept_app, countdown_trace_slept. simpl. now rewrite app_nil_r. }
    split; [exact Hs|]. split; [rewrite Hs; apply total_repeat|].
    split; [exact Hmiss|]. left. split; [exact Hhit|].
    apply bounded_found; try assumption; lia.
  - set (n := Z.to_nat (RETRY_ATTEMPTS cfg)) in *.
    exists (countdown_trace cfg path (RETRY_ATTEMPTS cfg) n ++ [IsFile path false])%list, n.
    split; [lia|].
    split; [rewrite checks_app, countdown_trace_checks; unfold checks; simpl; lia|].
    assert (Hs : slept (countdown_trace cfg path (RETRY_ATTEMPTS cfg) n
                          ++ [IsFile path false])
                 = repeat (RETRY_PERIOD cfg) n).
    { rewrite slept_app, countdown_trace_slept. simpl. now rewrite app_nil_r. }
    split; [exact Hs|]. split; [rewrite Hs; apply total_repeat|].
    split; [intros j Hj; apply Hall; lia|]. right.
    split; [apply Hall; lia|]. split; [reflexivity|].
    apply bounded_missing; try assumption; try lia.
Qed.

Lemma gate_ends_within_retries_witness :
  exists t k,
    k <= 3
    /\ checks t = S k
    /\ slept t = repeat 5%Z k
    /\ total (slept t) = (Z.of_nat k * 5)%Z
    /\ (forall j, j < k -> Sample.never "/media/videos/a.mp4" j = false)
    /\ ((Sample.never "/media/videos/a.mp4" k = true
         /\ check_file (Sample.with_retry 3 5 Sample.shipped)
              (Sample.flaky Sample.never) "/media/videos/a.mp4" 4 Sample.fresh
            = Done tt (emits t Sample.fresh))
        \/ (Sample.never "/media/videos/a.mp4" k = false
            /\ k = 3
            /\ check_file (Sample.with_retry 3 5 Sample.shipped)
                 (Sample.flaky Sample.never) "/media/videos/a.mp4" 4 Sample.fresh
               = Raised (FileNotFoundError "/media/videos/a.mp4")
                   (emits t Sample.fresh))).
Proof.
  apply (gate_ends_within_retries (Sample.with_retry 3 5 Sample.shipped)
           (Sample.flaky Sample.never) "/media/videos/a.mp4" Sample.fresh 4);
    simpl; lia.
Defined.

Lemma while_not_isfile_bound cfg e path (fuel : nat) :
  forall l w w',
    (retry_attempts_string l = None -> (0 <= retry_attempts_remaining l)%Z) ->
    while_not_isfile cfg e path fuel l w <> Raised UnboundLocalError w'.
Proof.
  induction fuel as [|fuel IH]; intros l w w' Hinv; [discriminate|].
  cbn [while_not_isfile]. unfold bind at 1. unfold modify at 1.
  destruct (isfile e path (polls l)); [discriminate|].
  unfold bind at 1. unfold countdown.
  destruct (Z.ltb_spec 0 (retry_attempts_remaining l)) as [Hpos|Hle].
  - cbn [of_option]. unfold ret at 1. unfold bind at 1.
    cbn [retry_attempts_string of_option]. unfold ret at 1.
    unfold bind at 1. unfold modify at 1. unfold bind at 1.
    unfold sleep. destruct (RETRY_PERIOD cfg <? 0)%Z; [discriminate|].
    unfold modify at 1. apply IH. discriminate.
  - destruct (Z.eqb_spec (retry_attempts_remaining l) 0) as [Hz|Hnz];
      cbn [of_option]; [discriminate|].
    unfold ret at 1. unfold bind at 1.
    destruct (retry_attempts_string l) as [s|] eqn:Es.
    + cbn [of_option]. unfold ret at 1.
      unfold bind at 1. unfold modify at 1. unfold bind at 1.
      unfold sleep. destruct (RETRY_PERIOD cfg <? 0)%Z; [discriminate|].
      unfold modify at 1. apply IH. cbn. discriminate.
    + specialize (Hinv eq_refl). lia.
Qed.

(** X6. The notice of line 87 never meets an unbound
    [retry_attempts_string]: whatever the configuration and the file
    system, [check_file] does not end with [UnboundLocalError]. *)
Theorem check_file_never_unbound cfg e path (fuel : nat) (w w' : world) :
  check_file cfg e path fuel w <> Raised UnboundLocalError w'.
Proof.
  unfold check_file. apply while_not_isfile_bound. cbn.
  destruct (Z.ltb_spec (RETRY_ATTEMPTS cfg) 0); [discriminate | intros _; lia].
Qed.

(** X7. With retries enabled and a negative [RETRY_PERIOD], the first
    failed check prints its notice and then ends with the [ValueError] of
    [time.sleep]: the path is never checked a second time. *)
Theorem negative_period_ends_the_gate cfg e path (fuel : nat) (w : world) :
  (RETRY_ATTEMPTS cfg <> 0)%Z -> (RETRY_PERIOD cfg < 0)%Z ->
  isfile e path 0 = false ->
  check_file cfg e path (S fuel) w
  = Raised ValueError
      (emits [IsFile path false;
              Print (retry_message cfg path
                       (if (RETRY_ATTEMPTS cfg <? 0)%Z then EmptyString
                        else attempts_string (RETRY_ATTEMPTS cfg)))] w).
Proof.
  intros Hr Hd Hp. unfold check_file. cbn [while_not_isfile].
  unfold bind at 1. unfold modify at 1. cbn [polls]. rewrite Hp.
  unfold bind at 1. unfold countdown. cbn [retry_attempts_remaining].
  destruct (Z.ltb_spec 0 (RETRY_ATTEMPTS cfg)) as [Hpos|Hle].
  - destruct (Z.ltb_spec (RETRY_ATTEMPTS cfg) 0); [lia|].
    cbn. unfold bind, modify, sleep.
    destruct (Z.ltb_spec (RETRY_PERIOD cfg) 0); [|lia].
    unfold raise. f_equal. unfold emit, emits.
    cbn [console play_index_txt play_history_txt schedule_html].
    now rewrite <- app_assoc.
  - destruct (Z.eqb_spec (RETRY_ATTEMPTS cfg) 0); [contradiction|].
    destruct (Z.ltb_spec (RETRY_ATTEMPTS cfg) 0); [|lia].
    cbn. unfold bind, modify, sleep.
    destruct (Z.ltb_spec (RETRY_PERIOD cfg) 0); [|lia].
    unfold raise. f_equal. unfold emit, emits.
    cbn [console play_index_txt play_history_txt schedule_html].
    now rewrite <- app_assoc.
Qed.

Lemma negative_period_ends_the_gate_witness :
  check_file (Sample.with_retry (-1) (-5) Sample.shipped)
    (Sample.flaky (Sample.appears_at 1)) "/media/videos/a.mp4" 9 Sample.fresh
  = Raised ValueError
      (emits [IsFile "/media/videos/a.mp4" false;
              Print (retry_message (Sample.with_retry (-1) (-5) Sample.shipped)
                       "/media/videos/a.mp4" EmptyString)] Sample.fresh).
Proof.
  apply (negative_period_ends_the_gate (Sample.with_retry (-1) (-5) Sample.shipped)
           (Sample.flaky (Sample.appears_at 1)) "/media/videos/a.mp4" 8 Sample.fresh).
  - discriminate.
  - reflexivity.
  - reflexivity.
Defined.

(** ** History Log *)

Lemma single_line_no_cr (b : string) : single_line b = true -> has_char CR b = false.
Proof.
  unfold single_line. intros H. apply andb_true_iff in H as [_ H].
  now apply negb_true_iff in H.
Qed.

Lemma single_line_no_lf (b : string) : single_line b = true -> has_char LF b = false.
Proof.
  unfold single_line. intros H. apply andb_true_iff in H as [H _].
  now apply negb_true_iff in H.
Qed.

Lemma universal_newlines_app (b rest : string) :
  has_char CR b = false ->
  universal_newlines (b ++ rest) = b ++ universal_newlines rest.
Proof.
  induction b as [|a b IH]; intros H; [reflexivity|].
  simpl in H. apply orb_false_iff in H as [Ha Hb].
  simpl. rewrite Ha. now rewrite IH.
Qed.

Lemma universal_newlines_cr (rest : string) :
  (forall r, rest <> String LF r) ->
  universal_newlines (String CR rest) = String LF (universal_newlines rest).
Proof.
  intros H. cbn [universal_newlines]. change (Ascii.eqb CR CR) with true. cbv iota.
  destruct rest as [|a rest]; [reflexivity|].
  destruct (Ascii.eqb_spec a LF) as [->|_]; [now elim (H rest) | reflexivity].
Qed.

Lemma lines_text_cr_head (bodies : list string) (r : string) :
  Forall (fun b => single_line b = true) bodies ->
  lines_text (chr CR) bodies <> String LF r.
Proof.
  intros H. destruct H as [|b bodies Hb _]; [discriminate|].
  cbn [lines_text]. destruct b as [|c b]; [discriminate|].
  apply single_line_no_lf in Hb. simpl in Hb.
  apply orb_false_iff in Hb as [Hc _].
  simpl. intros E. injection E as -> _. discriminate.
Qed.

Lemma universal_newlines_lines_text (ending : string) (bodies : list string) :
  ending = chr LF \/ ending = String CR (chr LF) \/ ending = chr CR ->
  Forall (fun b => single_line b = true) bodies ->
  universal_newlines (lines_text ending bodies) = lines_text (chr LF) bodies.
Proof.
  intros Hend. induction 1 as [|b bodies Hb Hbs IH]; [reflexivity|].
  cbn [lines_text]. rewrite universal_newlines_app by now apply single_line_no_cr.
  f_equal. destruct Hend as [-> | [-> | ->]].
  - simpl. now rewrite IH.
  - simpl. now rewrite IH.
  - change (chr CR ++ lines_text (chr CR) bodies)
      with (String CR (lines_text (chr CR) bodies)).
    rewrite universal_newlines_cr by (intros r; now apply lines_text_cr_head).
    now rewrite IH.
Qed.

Lemma lines_go_lines_text (bodies : list string) :
  Forall (fun b => single_line b = true) bodies ->
  lines_go EmptyString (lines_text (chr LF) bodies)
  = map (fun b => b ++ chr LF) bodies.
Proof.
  induction 1 as [|b bodies Hb _ IH]; [reflexivity|].
  cbn [lines_text map].
  change (chr LF ++ lines_text (chr LF) bodies)
    with (String LF (lines_text (chr LF) bodies)).
  rewrite lines_go_line by now apply single_line_no_lf.
  simpl. now rewrite IH.
Qed.

(** X8. Reading a log gives its lines back, each ended by a line feed,
    whether the file ends its lines with LF, with CR LF or with CR: a log
    that went through an editor with other line ends is read the same. *)
Theorem readlines_any_line_end (ending : string) (bodies : list string) :
  ending = chr LF \/ ending = String CR (chr LF) \/ ending = chr CR ->
  Forall (fun b => single_line b = true) bodies ->
  readlines (lines_text ending bodies) = map (fun b => b ++ chr LF) bodies.
Proof.
  intros Hend Hb. unfold readlines.
  rewrite universal_newlines_lines_text by assumption.
  now apply lines_go_lines_text.
Qed.

Lemma readlines_any_line_end_witness :
  readlines (lines_text (String CR (chr LF)) ["t1,a.mp4"; "t2,b.mp4"])
  = map (fun b => b ++ chr LF) ["t1,a.mp4"; "t2,b.mp4"].
Proof.
  apply readlines_any_line_end; [right; left; reflexivity | repeat constructor].
Defined.

(** X9. A log that already holds lines, more of them than the capacity
    allows or not (say after [PLAY_HISTORY_LENGTH] was lowered): put the
    lines of the next calls after its old lines; after these calls the
    log holds the last [N] lines of that sequence, so at most [N] lines
    in all, the newest last. The first call already cuts the log down to
    the capacity. *)
Theorem history_log_from_existing cfg (calls : list (string * string))
        (ls0 : list string) (w : world) :
  (0 < PLAY_HISTORY_LENGTH cfg)%Z ->
  play_history_txt w = Some (writelines ls0) ->
  Forall record_line ls0 ->
  Forall (fun c => single_line (fst c) = true /\ single_line (snd c) = true) calls ->
  calls <> [] ->
  exists w',
    records cfg calls w = Done tt w'
    /\ log_lines w'
       = last_n (Z.to_nat (PLAY_HISTORY_LENGTH cfg))
                (ls0 ++ map (fun c => history_line (fst c) (snd c)) calls)
    /\ List.length (log_lines w') <= Z.to_nat (PLAY_HISTORY_LENGTH cfg).
Proof.
  intros HN Hw Hls0 Hcalls Hne.
  destruct calls as [|[t f] calls]; [now elim Hne|].
  inversion Hcalls as [|c cs [Ht Hf] Hrest]; subst. simpl in Ht, Hf.
  assert (Hlog : log_lines w = ls0).
  { unfold log_lines. rewrite Hw. now apply readlines_writelines. }
  assert (Hline : Forall record_line (ls0 ++ [history_line t f])).
  { apply Forall_app. split; [assumption|]. constructor; [|constructor].
    now apply history_line_record_line. }
  destruct (records_invariant cfg HN calls (ls0 ++ [history_line t f])%list
              (set_history
                 (writelines (last_n (Z.to_nat (PLAY_HISTORY_LENGTH cfg))
                                     (ls0 ++ [history_line t f]))) w))
    as (w' & Hrun & Hlog' & _); try assumption.
  { apply log_lines_set_history. now apply Forall_last_n. }
  exists w'. split; [|split].
  - simpl records. unfold bind. rewrite record_rewrites by exact HN.
    rewrite Hlog. exact Hrun.
  - rewrite Hlog', <- app_assoc. reflexivity.
  - rewrite Hlog', last_n_length. lia.
Qed.

Lemma history_log_from_existing_witness :
  exists w',
    records (Sample.with_history 2 Sample.shipped) [("t4", "d.mp4")]
      (set_history (writelines ["t1,a.mp4" ++ chr LF; "t2,b.mp4" ++ chr LF;
                                "t3,c.mp4" ++ chr LF]) Sample.fresh)
    = Done tt w'
    /\ log_lines w' = ["t3,c.mp4" ++ chr LF; "t4,d.mp4" ++ chr LF]
    /\ List.length (log_lines w') <= 2.
Proof.
  apply (history_log_from_existing (Sample.with_history 2 Sample.shipped)
           [("t4", "d.mp4")]
           ["t1,a.mp4" ++ chr LF; "t2,b.mp4" ++ chr LF; "t3,c.mp4" ++ chr LF]).
  - reflexivity.
  - reflexivity.
  - repeat constructor; eexists; split; reflexivity.
  - repeat constructor.
  - discriminate.
Defined.

(** ** Display names and the schedule *)

Lemma rfind_none (c : ascii) (s : string) : rfind c s = None -> has_char c s = false.
Proof.
  induction s as [|a s IH]; simpl; [reflexivity|].
  destruct (rfind c s); [discriminate|].
  destruct (Ascii.eqb a c); [discriminate|]. intros _. now apply IH.
Qed.

Lemma rfind_split (c : ascii) (p : string) (i : nat) :
  rfind c p = Some i ->
  exists a b, p = a ++ String c b /\ String.length a = i /\ has_char c b = false.
Proof.
  revert i; induction p as [|x p IH]; intros i; simpl; [discriminate|].
  destruct (rfind c p) as [j|] eqn:E.
  - intros H. injection H as <-.
    destruct (IH j eq_refl) as (a & b & -> & Hlen & Hb).
    exists (String x a), b. simpl. now rewrite Hlen.
  - destruct (Ascii.eqb_spec x c) as [->|_]; [|discriminate].
    intros H. injection H as <-.
    exists EmptyString, p. split; [reflexivity|]. split; [reflexivity|].
    now apply rfind_none.
Qed.

Lemma rfind_in_suffix (c : ascii) (a b : string) :
  has_char c b = true ->
  exists j, rfind c (a ++ b) = Some j /\ String.length a <= j.
Proof.
  intros Hb. induction a as [|x a (j & Hj & Hle)]; simpl.
  - destruct (rfind c b) as [j|] eqn:E.
    + exists j. split; [reflexivity | lia].
    + apply rfind_none in E. congruence.
  - rewrite Hj. exists (S j). split; [reflexivity | lia].
Qed.

Lemma has_non_dot_zero (p : string) (from : nat) : has_non_dot p from 0 = false.
Proof. destruct p, from; reflexivity. Qed.

(** The two outcomes of [splitext]: the path whole, or the path cut at
    the last dot of its last component. *)
Lemma splitext_cases (p : string) :
  splitext p = (p, EmptyString)
  \/ exists a b,
      p = a ++ String dot b /\ splitext p = (a, String dot b)
      /\ a <> EmptyString
      /\ has_char dot b = false /\ has_char slash b = false.
Proof.
  unfold splitext. destruct (rfind dot p) as [i|] eqn:E; [|now left].
  destruct ((filename_index p <=? i)%nat && has_non_dot p (filename_index p) i) eqn:C;
    [|now left].
  right. apply andb_true_iff in C as [Hle Hnd]. apply Nat.leb_le in Hle.
  destruct (rfind_split _ _ _ E) as (a & b & Hp & Hlen & Hb).
  exists a, b. subst i. split; [exact Hp|]. split; [|split; [|split]].
  - rewrite Hp. now rewrite substring_prefix, substring_suffix.
  - intros ->. simpl in Hnd. now rewrite has_non_dot_zero in Hnd.
  - exact Hb.
  - destruct (has_char slash b) eqn:Hs; [|reflexivity].
    assert (Hs' : has_char slash (String dot b) = true) by exact Hs.
    destruct (rfind_in_suffix slash a _ Hs') as (j & Hj & Hge).
    unfold filename_index in Hle. rewrite Hp, Hj in Hle. lia.
Qed.

Lemma splitext_root_empty (p : string) :
  fst (splitext p) = EmptyString <-> p = EmptyString.
Proof.
  destruct (splitext_cases p) as [->|(a & b & Hp & -> & Ha & _)]; simpl.
  - reflexivity.
  - split; [intros ->; now elim Ha|].
    intros ->. destruct a; discriminate.
Qed.

(** X10. [splitext] cuts a path in two parts that give the path back when
    put together; the second part is empty or begins with a dot and
    holds no other dot and no slash; and the first part is empty only
    for the empty path. *)
Theorem splitext_parts (p : string) :
  fst (splitext p) ++ snd (splitext p) = p
  /\ (snd (splitext p) = EmptyString
      \/ exists r, snd (splitext p) = String dot r
                   /\ has_char dot r = false /\ has_char slash r = false)
  /\ (fst (splitext p) = EmptyString <-> p = EmptyString).
Proof.
  destruct (splitext_cases p) as [->|(a & b & Hp & -> & Ha & Hd & Hs)]; simpl.
  - split; [apply append_nil_r|]. split; [now left | reflexivity].
  - split; [now symmetry|]. split.
    + right. exists b. repeat split; assumption.
    + split; [intros ->; now elim Ha|].
      intros ->. destruct a; discriminate.
Qed.

Lemma replace_char_empty (old : ascii) (c : ascii) (s : string) :
  replace_char old (chr c) s = EmptyString <-> s = EmptyString.
Proof.
  split; [|now intros ->].
  destruct s as [|a s]; [reflexivity|]. simpl.
  destruct (Ascii.eqb a old); discriminate.
Qed.

(** X11. A display name is empty only for the empty entry; so the
    artifact has an empty previous name exactly when [write_schedule] is
    called without a previous file. *)
Theorem display_name_empty_iff cfg e :
  (forall filename, strip filename = EmptyString <-> filename = EmptyString)
  /\ (forall file_list previous_file a,
         write_schedule cfg e file_list previous_file = inl a ->
         (previous_name a = EmptyString <-> previous_file = EmptyString)).
Proof.
  assert (Hstrip : forall filename,
             strip filename = EmptyString <-> filename = EmptyString).
  { intros filename. unfold strip.
    change "/" with (chr slash). rewrite replace_char_empty.
    apply splitext_root_empty. }
  split; [exact Hstrip|].
  intros file_list previous_file a H. unfold write_schedule in H.
  destruct (project cfg e file_list (utcnow e) []); [|discriminate].
  injection H as <-. cbn [previous_name].
  destruct (String.eqb_spec previous_file EmptyString) as [->|Hne]; simpl.
  - split; reflexivity.
  - rewrite Hstrip. split; [intros E; now elim Hne | intros E; now elim Hne].
Qed.

Lemma display_name_empty_iff_witness :
  previous_name (Artifact "[{time:'t0',name:'A'}]" "C") = EmptyString
  <-> "C.mp4" = EmptyString.
Proof.
  destruct (display_name_empty_iff Sample.shipped (Sample.calm 0)) as [_ H].
  apply (H ["A.mp4"] "C.mp4"). reflexivity.
Defined.

Lemma project_succeeds_iff cfg e (file_list : list string) :
  forall next_time coming_up_next,
    (exists r, project cfg e file_list next_time coming_up_next = inl r)
    <-> forall filename,
        In filename file_list ->
        ffprobe e (path_join (BASE_PATH cfg) filename) <> EmptyString
        /\ float_seconds e (ffprobe e (path_join (BASE_PATH cfg) filename)) <> None.
Proof.
  induction file_list as [|f file_list IH]; intros t acc.
  - split; [intros _ g [] | intros _; now eexists].
  - cbn [project]. unfold get_length.
    destruct (String.eqb_spec (ffprobe e (path_join (BASE_PATH cfg) f)) EmptyString)
      as [Hf|Hf].
    + split; [intros [r H]; discriminate|].
      intros H. destruct (H f (or_introl eq_refl)) as [Hne _]. contradiction.
    + destruct (float_seconds e (ffprobe e (path_join (BASE_PATH cfg) f)))
        as [dur|] eqn:Hd.
      * rewrite IH. split.
        -- intros H g [<-|Hg]; [split; [exact Hf | now rewrite Hd] | now apply H].
        -- intros H g Hg. apply H. now right.
      * split; [intros [r H]; discriminate|].
        intros H. destruct (H f (or_introl eq_refl)) as [_ Hn]. now rewrite Hd in Hn.
Qed.

(** X12. [write_schedule] comes to write an artifact only if the probe
    printed something for every file of the list and that text was
    turned into a duration; when for one file the probe prints nothing or
    its text is turned into no duration, the call ends with an exception
    and the schedule is left unwritten. *)
Theorem write_schedule_needs_every_probe cfg e (file_list : list string)
        (previous_file : string) :
  (forall a,
      write_schedule cfg e file_list previous_file = inl a ->
      forall filename,
        In filename file_list ->
        ffprobe e (path_join (BASE_PATH cfg) filename) <> EmptyString
        /\ float_seconds e (ffprobe e (path_join (BASE_PATH cfg) filename)) <> None)
  /\ ((exists filename,
         In filename file_list
         /\ (ffprobe e (path_join (BASE_PATH cfg) filename) = EmptyString
             \/ float_seconds e (ffprobe e (path_join (BASE_PATH cfg) filename)) = None)) ->
      exists ex, write_schedule cfg e file_list previous_file = inr ex).
Proof.
  pose proof (project_succeeds_iff cfg e file_list (utcnow e) []) as Hiff.
  unfold write_schedule.
  destruct (project cfg e file_list (utcnow e) []) as [r|ex].
  - assert (Hall : forall filename,
               In filename file_list ->
               ffprobe e (path_join (BASE_PATH cfg) filename) <> EmptyString
               /\ float_seconds e (ffprobe e (path_join (BASE_PATH cfg) filename))
                  <> None).
    { apply Hiff. now exists r. }
    split; [intros a _; exact Hall|].
    intros (f & Hin & Hbad). destruct (Hall f Hin) as [Hne Hfl].
    destruct Hbad as [Hbad|Hbad]; contradiction.
  - split; [intros a H; discriminate|].
    intros _. now exists ex.
Qed.

Lemma write_schedule_needs_every_probe_witness :
  ffprobe (Sample.calm 0) (path_join (BASE_PATH Sample.shipped) "A.mp4") <> EmptyString
  /\ float_seconds (Sample.calm 0)
       (ffprobe (Sample.calm 0) (path_join (BASE_PATH Sample.shipped) "A.mp4"))
     <> None.
Proof.
  apply (proj1 (write_schedule_needs_every_probe Sample.shipped (Sample.calm 0)
                  ["A.mp4"; "B.mp4"] EmptyString)
               (Artifact "[{time:'t0',name:'A'},{time:'t30000000',name:'B'}]" EmptyString)).
  - reflexivity.
  - now left.
Defined.

Lemma timeline_not_before (duration : string -> Z) (file_list : list string) :
  forall next_time,
    (forall f, In f file_list -> (0 <= duration f)%Z) ->
    Forall (fun item => (next_time <= fst item)%Z)
           (timeline duration file_list next_time).
Proof.
  induction file_list as [|f file_list IH]; intros t Hd; [constructor|].
  cbn [timeline]. constructor; [simpl; lia|].
  assert (Hf : (0 <= duration f)%Z) by (apply Hd; now left).
  eapply Forall_impl; [|apply IH; intros g Hg; apply Hd; now right].
  simpl. intros item H. lia.
Qed.

Lemma timeline_sorted (duration : string -> Z) (file_list : list string) :
  forall next_time,
    (forall f, In f file_list -> (0 <= duration f)%Z) ->
    StronglySorted Z.le (map fst (timeline duration file_list next_time)).
Proof.
  induction file_list as [|f file_list IH]; intros t Hd; [constructor|].
  cbn [timeline map fst]. constructor.
  - apply IH. intros g Hg. apply Hd. now right.
  - assert (Hf : (0 <= duration f)%Z) by (apply Hd; now left).
    apply Forall_map.
    eapply Forall_impl;
      [|apply (timeline_not_before duration file_list (t + duration f)%Z);
        intros g Hg; apply Hd; now right].
    simpl. intros item H. lia.
Qed.

Lemma timeline_names (duration : string -> Z) (file_list : list string) :
  forall next_time,
    map snd (timeline duration file_list next_time) = map strip file_list.
Proof.
  induction file_list as [|f file_list IH]; intros t; [reflexivity|].
  cbn [timeline map snd]. now rewrite IH.
Qed.

(** X13. When every file is probed to a duration that is not negative,
    the schedule lists the files in the order given, under their display
    names, with start times that never decrease and are never earlier
    than the anchor. *)
Theorem schedule_times_ordered cfg e (duration : string -> Z)
        (file_list : list string) :
  probed cfg e duration file_list ->
  (forall f, In f file_list -> (0 <= duration f)%Z) ->
  exists coming_up_next,
    project cfg e file_list (utcnow e) [] = inl coming_up_next
    /\ map snd coming_up_next = map strip file_list
    /\ StronglySorted Z.le (map fst coming_up_next)
    /\ Forall (fun item => (utcnow e <= fst item)%Z) coming_up_next.
Proof.
  intros Hp Hd. exists (timeline duration file_list (utcnow e)).
  split; [now rewrite (project_timeline cfg e duration)|].
  split; [apply timeline_names|].
  split; [now apply timeline_sorted | now apply timeline_not_before].
Qed.

Lemma schedule_times_ordered_witness :
  exists coming_up_next,
    project Sample.shipped (Sample.calm 7) ["C.mp4"; "A.mp4"] 7 [] = inl coming_up_next
    /\ map snd coming_up_next = map strip ["C.mp4"; "A.mp4"]
    /\ StronglySorted Z.le (map fst coming_up_next)
    /\ Forall (fun item => (7 <= fst item)%Z) coming_up_next.
Proof.
  apply (schedule_times_ordered Sample.shipped (Sample.calm 7) Sample.duration_abc
           ["C.mp4"; "A.mp4"]).
  - intros f [<-|[<-|[]]]; split; try discriminate; reflexivity.
  - intros f [<-|[<-|[]]]; unfold Sample.duration_abc; simpl; lia.
Defined.

(** ** Playback Coordinator *)

Lemma check_file_emits cfg e path (fuel : nat) (w : world) :
  exists t, final (check_file cfg e path fuel w) = emits t w /\ Forall gate_event t.
Proof. unfold check_file. apply while_not_isfile_emits. Qed.

Lemma persisted_emits (t : list event) (w : world) : persisted (emits t w) = persisted w.
Proof. reflexivity. Qed.

Lemma read_index_kept (w : world) (c : Z) :
  persisted w = Some c ->
  exists w0, read_index w = Done c w0
             /\ persisted w0 = Some c
             /\ play_history_txt w0 = play_history_txt w
             /\ schedule_html w0 = schedule_html w
             /\ console w0 = console w.
Proof.
  unfold persisted, read_index. destruct (play_index_txt w) eqn:E; intros H;
    try discriminate; injection H as <-.
  - exists (set_index 0 w). repeat split.
  - exists w. repeat split. unfold persisted. now rewrite E.
Qed.

(** A turn that does not end normally: what it leaves behind. *)
Lemma loop_not_done cfg e fuel (media_playlist : list string) (w : world) (c : Z) :
  persisted w = Some c ->
  match loop cfg e fuel media_playlist w with
  | Done _ _ => True
  | Raised _ w' | Pending w' =>
      persisted w' = persisted w
      /\ schedule_html w' = schedule_html w
      /\ exists t, console w' = (console w ++ t)%list
                   /\ played t = [] /\ spawned t = []
  end.
Proof.
  intros Hp.
  destruct (read_index_kept w c Hp) as (w0 & Hread & Hp0 & _ & Hs0 & Hc0).
  assert (Hquiet : forall t, Forall gate_event t ->
             persisted (emits t w0) = persisted w
             /\ schedule_html (emits t w0) = schedule_html w
             /\ exists t', console (emits t w0) = (console w ++ t')%list
                           /\ played t' = [] /\ spawned t' = []).
  { intros t Ht. rewrite persisted_emits, Hp0, Hp. split; [reflexivity|].
    split; [exact Hs0|]. exists t. simpl. rewrite Hc0.
    destruct (gate_event_spawned t Ht) as [Hsp Hpl]. now repeat split. }
  unfold loop. unfold bind at 1. rewrite Hread.
  unfold bind at 1.
  destruct (c <? len media_playlist)%Z; [|exact I].
  unfold bind at 1.
  destruct (getitem media_playlist c) as [f|]; cbn [of_option].
  2:{ unfold raise. rewrite Hp0, Hp. split; [reflexivity|]. split; [exact Hs0|].
      exists []. rewrite app_nil_r. now repeat split. }
  unfold ret at 1. unfold bind at 1.
  destruct (check_file_emits cfg e (path_join (BASE_PATH cfg) f) fuel w0)
    as (t & Hfin & Ht).
  destruct (check_file cfg e (path_join (BASE_PATH cfg) f) fuel w0)
    as [[] w1|ex w1|w1]; simpl in Hfin; subst w1;
    [|now apply Hquiet|now apply Hquiet].
  unfold bind at 1.
  destruct (record_done cfg (now e) f (emits t w0)) as (wh & -> & Hih & Hsh & Hch).
  unfold bind at 1. unfold modify at 1.
  destruct (SCHEDULE_PATH cfg).
  - unfold bind at 1.
    destruct (getitem media_playlist (c - 1)) as [prev|]; cbn [of_option].
    + unfold ret, bind, modify, schedule_p, modify. exact I.
    + unfold raise. split; [|split].
      * unfold persisted in *. simpl. rewrite Hih. exact (proj1 (Hquiet t Ht)).
      * simpl. rewrite Hsh. exact (proj1 (proj2 (Hquiet t Ht))).
      * exists (t ++ [Print ("Now playing: " ++ f)])%list.
        simpl. rewrite Hch. simpl. rewrite Hc0, played_app, spawned_app.
        destruct (gate_event_spawned t Ht) as [-> ->].
        rewrite <- app_assoc. now repeat split.
  - unfold ret, bind, modify. exact I.
Qed.

(** X14. A turn that ends with an exception, or is still waiting for its
    file, has started no player and no schedule process and has left the
    schedule artifact and the cursor as the next turn will read it
    untouched: the cursor moves only when a turn completes. *)
Theorem failed_turn_changes_nothing cfg e fuel (media_playlist : list string)
        (w : world) :
  match loop cfg e fuel media_playlist w with
  | Done _ _ => True
  | Raised _ w' | Pending w' =>
      persisted w' = persisted w
      /\ played (console w') = played (console w)
      /\ spawned (console w') = spawned (console w)
      /\ schedule_html w' = schedule_html w
  end.
Proof.
  destruct (persisted w) as [c|] eqn:Hp.
  - pose proof (loop_not_done cfg e fuel media_playlist w c Hp) as H.
    destruct (loop cfg e fuel media_playlist w) as [u w'|ex w'|w']; [exact I| |];
      destruct H as (Hper & Hs & t & Hc & Hpl & Hsp);
      rewrite Hc, played_app, spawned_app, Hpl, Hsp, !app_nil_r, Hper, Hp;
      now repeat split.
  - unfold persisted in Hp. unfold loop, bind, read_index.
    destruct (play_index_txt w) eqn:E; try discriminate.
    unfold persisted. rewrite E. now repeat split.
Qed.

(** A turn that plays and ends normally, schedule or not. *)
Lemma loop_done_shape cfg e fuel (media_playlist : list string) (w w' : world) (c : Z) :
  persisted w = Some c -> (c < len media_playlist)%Z ->
  loop cfg e fuel media_playlist w = Done tt w' ->
  exists video_file t,
    getitem media_playlist c = Some video_file
    /\ Forall gate_event t
    /\ play_history_txt w'
       = play_history_txt (final (record cfg (now e) video_file w))
    /\ played (console w')
       = (played (console w)
          ++ [player_command cfg (path_join (BASE_PATH cfg) video_file)])%list
    /\ (SCHEDULE_PATH cfg = None ->
        schedule_html w' = schedule_html w
        /\ spawned (console w') = spawned (console w)).
Proof.
  intros Hp Hc H.
  destruct (read_index_kept w c Hp) as (w0 & Hread & Hp0 & Hh0 & Hs0 & Hc0).
  unfold loop in H.
  apply bind_done in H as (c' & w0' & Hread' & H).
  rewrite Hread in Hread'. injection Hread' as <- <-.
  apply bind_done in H as (next & w1 & Hbody & Hset).
  apply modify_done in Hset. subst w'.
  destruct (Z.ltb_spec c (len media_playlist)); [|lia].
  apply bind_done in Hbody as (f & w2 & Hf & Hbody).
  apply of_option_done in Hf as [Hf ->].
  apply bind_done in Hbody as (u1 & w3 & Hgate & Hbody).
  destruct u1. apply check_file_done in Hgate as (t & -> & Ht).
  apply bind_done in Hbody as (u2 & w4 & Hrec & Hbody).
  assert (Hhist : play_history_txt w4
                  = play_history_txt (final (record cfg (now e) f w))
                  /\ schedule_html w4 = schedule_html w
                  /\ console w4 = (console w ++ t)%list).
  { unfold record in *. destruct (0 <? PLAY_HISTORY_LENGTH cfg)%Z.
    - unfold bind, get, modify in *. injection Hrec as _ <-. simpl.
      rewrite Hh0, Hs0, Hc0. now repeat split.
    - unfold ret in *. injection Hrec as _ <-. simpl.
      rewrite Hh0, Hs0, Hc0. now repeat split. }
  destruct Hhist as (Hh4 & Hs4 & Hc4).
  apply bind_done in Hbody as (u3 & w5 & Hprint & Hbody).
  apply modify_done in Hprint. subst w5.
  destruct (gate_event_spawned t Ht) as [Hsp Hpl].
  exists f, t. split; [exact Hf|]. split; [exact Ht|].
  destruct (SCHEDULE_PATH cfg) as [sp|].
  - apply bind_done in Hbody as (prev & w6 & Hprev & Hbody).
    apply of_option_done in Hprev as [Hprev ->].
    apply bind_done in Hbody as (u4 & w7 & Hrun & Hbody).
    apply modify_done in Hrun. subst w7.
    apply bind_done in Hbody as (u5 & w8 & Hspawn & Hbody).
    apply modify_done in Hspawn. subst w8.
    apply bind_done in Hbody as (u6 & w9 & Hsched & Hbody).
    apply modify_done in Hsched. subst w9.
    apply ret_done in Hbody as [<- ->].
    split; [|split; [|discriminate]].
    + destruct (write_schedule cfg e (media_copy cfg media_playlist c) prev);
        simpl; exact Hh4.
    + destruct (write_schedule cfg e (media_copy cfg media_playlist c) prev);
        simpl; rewrite Hc4, !played_app, Hpl; simpl; now rewrite !app_nil_r.
  - apply bind_done in Hbody as (u4 & w7 & Hrun & Hbody).
    apply modify_done in Hrun. subst w7.
    apply ret_done in Hbody as [<- ->].
    split; [simpl; exact Hh4|]. split.
    + simpl. rewrite Hc4, !played_app, Hpl. simpl. now rewrite !app_nil_r.
    + intros _. simpl. rewrite Hs4, Hc4, !spawned_app, Hsp. simpl.
      now rewrite !app_nil_r.
Qed.

(** X15. With [SCHEDULE_PATH] set to [None] a turn never starts the
    schedule process and never touches the schedule artifact, however it
    ends. *)
Theorem no_schedule_when_disabled cfg e fuel (media_playlist : list string)
        (w : world) :
  SCHEDULE_PATH cfg = None ->
  schedule_html (final (loop cfg e fuel media_playlist w)) = schedule_html w
  /\ spawned (console (final (loop cfg e fuel media_playlist w)))
     = spawned (console w).
Proof.
  intros Hs.
  pose proof (failed_turn_quiet := loop_not_done cfg e fuel media_playlist w).
  destruct (persisted w) as [c|] eqn:Hp.
  - specialize (failed_turn_quiet c eq_refl).
    destruct (loop cfg e fuel media_playlist w) as [[] w'|ex w'|w'] eqn:Hloop.
    + destruct (Z.ltb_spec c (len media_playlist)) as [Hlt|Hge].
      * destruct (loop_done_shape cfg e fuel media_playlist w w' c Hp Hlt Hloop)
          as (f & t & _ & _ & _ & _ & Hoff).
        exact (Hoff Hs).
      * rewrite (loop_wrap cfg e fuel media_playlist w c Hp Hge) in Hloop.
        injection Hloop as <-. split; reflexivity.
    + destruct failed_turn_quiet as (_ & Hsch & t & Hc & _ & Hsp).
      simpl. rewrite Hc, spawned_app, Hsp, app_nil_r. now split.
    + destruct failed_turn_quiet as (_ & Hsch & t & Hc & _ & Hsp).
      simpl. rewrite Hc, spawned_app, Hsp, app_nil_r. now split.
  - unfold persisted in Hp. unfold loop, bind, read_index.
    destruct (play_index_txt w); try discriminate. split; reflexivity.
Qed.

Lemma no_schedule_when_disabled_witness :
  schedule_html
    (final (loop (Config "/usr/bin/ffmpeg" "/usr/bin/ffprobe" "-re -i" "-f flv out"
                    "/media/videos/" 0 5 10 None 10)
              (Sample.calm 0) 1 Sample.abc Sample.fresh))
  = schedule_html Sample.fresh
  /\ spawned
       (console
          (final (loop (Config "/usr/bin/ffmpeg" "/usr/bin/ffprobe" "-re -i" "-f flv out"
                          "/media/videos/" 0 5 10 None 10)
                    (Sample.calm 0) 1 Sample.abc Sample.fresh)))
     = spawned (console Sample.fresh).
Proof.
  apply (no_schedule_when_disabled
           (Config "/usr/bin/ffmpeg" "/usr/bin/ffprobe" "-re -i" "-f flv out"
              "/media/videos/" 0 5 10 None 10)).
  reflexivity.
Defined.

Lemma getitem_nth (l : list string) (c : Z) (x : string) :
  (0 <= c)%Z -> getitem l c = Some x -> x = nth (Z.to_nat c) l EmptyString.
Proof.
  intros Hc. unfold getitem. destruct (Z.leb_spec 0 c) as [_|]; [|lia].
  intros Hx. symmetry. now apply nth_error_nth.
Qed.

Lemma firstn_succ_nth (l : list string) (n : nat) :
  n < List.length l -> firstn (S n) l = (firstn n l ++ [nth n l EmptyString])%list.
Proof.
  revert n; induction l as [|x l IH]; intros n Hn; [simpl in Hn; lia|].
  destruct n as [|n]; [reflexivity|].
  simpl in Hn. cbn [firstn nth app]. f_equal. apply (IH n). lia.
Qed.

(** X16. One rotation: from cursor 0, the first [n] turns that end
    normally start the player once on each of the first [n] entries, in
    playlist order, for every [n] up to the length of the playlist; the
    turn after the last entry starts nothing and puts the cursor back
    at 0. *)
Theorem rotation_plays_each_entry_once cfg envs fuel
        (media_playlist : list string) (cycles : nat) :
  forall w w',
    persisted w = Some 0%Z ->
    cycles <= List.length media_playlist + 1 ->
    run cfg envs fuel media_playlist cycles w = Done tt w' ->
    played (console w')
    = (played (console w)
       ++ map (fun video_file =>
                 player_command cfg (path_join (BASE_PATH cfg) video_file))
              (firstn cycles media_playlist))%list
    /\ (cycles = List.length media_playlist + 1 -> persisted w' = Some 0%Z).
Proof.
  induction cycles as [|n IH]; intros w w' Hp Hn H.
  - simpl in H. apply ret_done in H as [_ ->]. simpl. rewrite app_nil_r.
    split; [reflexivity | lia].
  - simpl in H. apply bind_done in H as ([] & w1 & Hrun & Hloop).
    destruct (IH w w1 Hp ltac:(lia) Hrun) as [Hplayed _].
    pose proof (run_done_index _ _ _ _ _ _ _ Hp Hrun) as Hp1.
    rewrite Z.mod_small in Hp1 by (unfold len; lia).
    destruct (Nat.eq_dec n (List.length media_playlist)) as [->|Hne].
    + rewrite (loop_wrap _ _ _ _ _ _ Hp1) in Hloop by (unfold len; lia).
      injection Hloop as <-. simpl console.
      rewrite firstn_all2 by lia. rewrite firstn_all in Hplayed.
      split; [exact Hplayed | reflexivity].
    + destruct (loop_done_shape cfg (envs n) fuel media_playlist w1 w' _ Hp1
                  ltac:(unfold len; lia) Hloop)
        as (f & t & Hf & _ & _ & Hpl & _).
      apply getitem_nth in Hf; [|lia]. rewrite Nat2Z.id in Hf. subst f.
      split; [|lia].
      rewrite Hpl, Hplayed, firstn_succ_nth, map_app by lia.
      now rewrite <- app_assoc.
Qed.

Lemma rotation_plays_each_entry_once_witness :
  exists w',
    run Sample.shipped (fun _ => Sample.calm 0) 1 Sample.abc 4 Sample.fresh = Done tt w'
    /\ played (console w')
       = map (fun video_file =>
                player_command Sample.shipped
                  (path_join (BASE_PATH Sample.shipped) video_file))
             Sample.abc
    /\ persisted w' = Some 0%Z.
Proof.
  destruct (run_completes Sample.shipped (fun _ => Sample.calm 0) 0 Sample.abc 4
              Sample.fresh) as (w' & Hrun); [reflexivity | reflexivity |].
  exists w'. split; [exact Hrun|].
  destruct (rotation_plays_each_entry_once Sample.shipped (fun _ => Sample.calm 0) 1
              Sample.abc 4 Sample.fresh w') as [Hplayed Hzero].
  - reflexivity.
  - simpl; lia.
  - exact Hrun.
  - split; [exact Hplayed | now apply Hzero].
Defined.

Lemma media_copy_exact cfg (media_playlist : list string) (c : Z) :
  (0 <= c < len media_playlist)%Z ->
  (len media_playlist - c = SCHEDULE_UPCOMING_LENGTH cfg)%Z ->
  media_copy cfg media_playlist c = skipn (Z.to_nat c) media_playlist.
Proof.
  intros Hc HM. unfold media_copy, slice_from, slice_to.
  assert (Hclamp : clamp media_playlist c = Z.to_nat c).
  { unfold clamp, len in *. destruct (Z.leb_spec 0 c); lia. }
  rewrite Hclamp.
  assert (Hlen : len (skipn (Z.to_nat c) media_playlist)
                 = (len media_playlist - c)%Z).
  { unfold len in *. rewrite length_skipn. lia. }
  rewrite Hlen.
  destruct (Z.leb_spec (SCHEDULE_UPCOMING_LENGTH cfg) (len media_playlist - c)); [|lia].
  unfold clamp. destruct (Z.leb_spec 0 (SCHEDULE_UPCOMING_LENGTH cfg + 1)); [|lia].
  apply firstn_all2. unfold len in *. rewrite length_skipn in *. lia.
Qed.

(** X17. Whatever is left of the playlist, the slice handed to
    [write_schedule] begins with the entry the turn plays, so the
    schedule opens with what is on air; and when exactly
    [SCHEDULE_UPCOMING_LENGTH] entries are left from the cursor on, the
    slice is just these entries, nothing being taken from the start of
    the playlist. *)
Theorem schedule_opens_with_current_entry cfg (media_playlist : list string) (c : Z) :
  (0 <= c < len media_playlist)%Z ->
  (0 <= SCHEDULE_UPCOMING_LENGTH cfg)%Z ->
  hd_error (media_copy cfg media_playlist c) = getitem media_playlist c
  /\ ((len media_playlist - c = SCHEDULE_UPCOMING_LENGTH cfg)%Z ->
      media_copy cfg media_playlist c = slice_from media_playlist c
      /\ len (media_copy cfg media_playlist c) = SCHEDULE_UPCOMING_LENGTH cfg).
Proof.
  intros Hc HM.
  assert (Hget : getitem media_playlist c
                 = Some (nth (Z.to_nat c) media_playlist EmptyString)).
  { unfold getitem. destruct (Z.leb_spec 0 c); [|lia].
    apply nth_error_nth'. unfold len in Hc. lia. }
  assert (Hclamp : clamp media_playlist c = Z.to_nat c).
  { unfold clamp, len in *. destruct (Z.leb_spec 0 c); lia. }
  split.
  - rewrite Hget.
    destruct (Z.eq_dec (len media_playlist - c) (SCHEDULE_UPCOMING_LENGTH cfg))
      as [Heq|Hne].
    + rewrite media_copy_exact by assumption.
      rewrite (skipn_nth EmptyString) by (unfold len in Hc; lia). reflexivity.
    + rewrite media_copy_by_index by assumption.
      rewrite Nat.add_1_r. cbn [seq map hd_error].
      rewrite Nat.add_0_r, Nat.mod_small by (unfold len in Hc; lia). reflexivity.
  - intros Heq. rewrite media_copy_exact by assumption.
    unfold slice_from. rewrite Hclamp. split; [reflexivity|].
    unfold len in *. rewrite length_skipn. lia.
Qed.

Lemma schedule_opens_with_current_entry_witness :
  hd_error (media_copy (Sample.with_upcoming 2 Sample.shipped) Sample.abc 1)
  = getitem Sample.abc 1
  /\ ((len Sample.abc - 1 = 2)%Z ->
      media_copy (Sample.with_upcoming 2 Sample.shipped) Sample.abc 1
      = slice_from Sample.abc 1
      /\ len (media_copy (Sample.with_upcoming 2 Sample.shipped) Sample.abc 1) = 2%Z).
Proof.
  apply (schedule_opens_with_current_entry (Sample.with_upcoming 2 Sample.shipped)
           Sample.abc 1); [unfold len; simpl; lia | simpl; lia].
Defined.

(** A turn on a cursor inside the bounds of Python's indexing, with its
    file there at the first check, ends normally. *)
Lemma loop_completes_any cfg e fuel (media_playlist : list string) (w : world)
      (c : Z) (video_file : string) :
  persisted w = Some c -> (c < len media_playlist)%Z ->
  getitem media_playlist c = Some video_file ->
  (forall sp, SCHEDULE_PATH cfg = Some sp ->
              exists previous_file,
                getitem media_playlist (c - 1) = Some previous_file) ->
  isfile e (path_join (BASE_PATH cfg) video_file) 0 = true ->
  exists w', loop cfg e (S fuel) media_playlist w = Done tt w'.
Proof.
  intros Hp Hlt Hf Hprev Hfile.
  destruct (read_index_done w c Hp) as (w0 & Hread & _).
  unfold loop. unfold bind at 1. rewrite Hread.
  destruct (Z.ltb_spec c (len media_playlist)); [|lia].
  match goal with
  | |- exists w', bind ?body ?k w0 = _ =>
      assert (Hbody : exists w9, body w0 = Done (c + 1)%Z w9)
  end.
  { rewrite Hf. unfold bind at 1. cbn [of_option]. unfold ret at 1.
    unfold bind at 1. rewrite check_file_present by exact Hfile.
    unfold bind at 1.
    destruct (record_done cfg (now e) video_file
                (emits [IsFile (path_join (BASE_PATH cfg) video_file) true] w0))
      as (w4 & -> & _).
    destruct (SCHEDULE_PATH cfg) as [sp|].
    - destruct (Hprev sp eq_refl) as (prev & ->).
      unfold bind, modify, schedule_p, modify. simpl. eexists. reflexivity.
    - unfold bind, modify. simpl. eexists. reflexivity. }
  destruct Hbody as (w9 & Hbody). unfold bind at 1. rewrite Hbody.
  unfold modify. eexists. reflexivity.
Qed.

(** The cursor at [-len(playlist)] with the schedule enabled: the first
    entry is resolved, checked and recorded, then line 222 asks for the
    entry before it. *)
Lemma loop_at_minus_len cfg e fuel (media_playlist : list string) (w : world)
      (sp : string) :
  play_index_txt w = Holds (- len media_playlist) ->
  media_playlist <> [] ->
  SCHEDULE_PATH cfg = Some sp ->
  isfile e (path_join (BASE_PATH cfg) (nth 0 media_playlist EmptyString)) 0 = true ->
  exists w',
    loop cfg e (S fuel) media_playlist w = Raised IndexError w'
    /\ play_index_txt w' = Holds (- len media_playlist)
    /\ played (console w') = played (console w)
    /\ play_history_txt w'
       = play_history_txt
           (final (record cfg (now e) (nth 0 media_playlist EmptyString) w)).
Proof.
  intros Hh Hne Hs Hfile.
  set (c := (- len media_playlist)%Z) in *.
  assert (Hlen : (0 < len media_playlist)%Z).
  { unfold len. destruct media_playlist; [now elim Hne | simpl; lia]. }
  assert (Hf : getitem media_playlist c
               = Some (nth 0 media_playlist EmptyString)).
  { unfold getitem. destruct (Z.leb_spec 0 c); [unfold c in *; lia|].
    destruct (Z.leb_spec 0 (len media_playlist + c)); [|unfold c in *; lia].
    replace (Z.to_nat (len media_playlist + c)) with 0 by (unfold c; lia).
    apply nth_error_nth'. unfold len in Hlen. lia. }
  assert (Hprev : getitem media_playlist (c - 1) = None).
  { unfold getitem. destruct (Z.leb_spec 0 (c - 1)); [unfold c in *; lia|].
    destruct (Z.leb_spec 0 (len media_playlist + (c - 1))); [unfold c in *; lia|].
    reflexivity. }
  unfold loop. unfold bind at 1. unfold read_index. rewrite Hh.
  destruct (Z.ltb_spec c (len media_playlist)); [|unfold c in *; lia].
  match goal with
  | |- exists w', bind ?body ?k w = _ /\ _ =>
      assert (Hbody : exists w9,
                 body w = Raised IndexError w9
                 /\ play_index_txt w9 = Holds c
                 /\ played (console w9) = played (console w)
                 /\ play_history_txt w9
                    = play_history_txt
                        (final (record cfg (now e)
                                  (nth 0 media_playlist EmptyString) w)))
  end.
  { rewrite Hf. unfold bind at 1. cbn [of_option]. unfold ret at 1.
    unfold bind at 1. rewrite check_file_present by exact Hfile.
    unfold bind at 1. rewrite Hs, Hprev.
    unfold record. destruct (0 <? PLAY_HISTORY_LENGTH cfg)%Z.
    - unfold bind, get, modify, of_option, raise. simpl.
      eexists. split; [reflexivity|]. simpl. rewrite Hh.
      split; [reflexivity|]. split; [|reflexivity].
      rewrite !played_app. simpl. now rewrite !app_nil_r.
    - unfold bind, ret, modify, of_option, raise. simpl.
      eexists. split; [reflexivity|]. simpl. rewrite Hh.
      split; [reflexivity|]. split; [|reflexivity].
      rewrite !played_app. simpl. now rewrite !app_nil_r. }
  destruct Hbody as (w9 & Hbody & Hrest). exists w9.
  split; [|exact Hrest]. unfold bind at 1. now rewrite Hbody.
Qed.

(** X18. Cursor files outside [0, len(playlist)]. One that holds no
    integer ends the turn with [ValueError], and one that holds an
    integer below [-len(playlist)] ends it with [IndexError], in both
    cases before any file is checked and with nothing changed. A
    negative cursor [c] above [-len(playlist)], or equal to it when the
    schedule is disabled, counts from the end as Python indices do: the
    turn plays entry [len(playlist) + c] and persists [c + 1], and it
    does end normally when that entry is there at its first check. At
    [-len(playlist)] with the schedule enabled the turn checks and
    records the first entry and then ends with the [IndexError] of line
    222: no player is started and the cursor stays. *)
Theorem unusable_cursor_ends_the_turn cfg e fuel (media_playlist : list string)
        (w : world) :
  (play_index_txt w = Garbage ->
   loop cfg e fuel media_playlist w = Raised ValueError w)
  /\ (forall c,
         play_index_txt w = Holds c -> (c < - len media_playlist)%Z ->
         loop cfg e fuel media_playlist w = Raised IndexError w)
  /\ (forall c,
         play_index_txt w = Holds c -> (- len media_playlist <= c < 0)%Z ->
         c <> (- len media_playlist)%Z \/ SCHEDULE_PATH cfg = None ->
         (forall w',
             loop cfg e fuel media_playlist w = Done tt w' ->
             played (console w')
             = (played (console w)
                ++ [player_command cfg
                      (path_join (BASE_PATH cfg)
                         (nth (Z.to_nat (len media_playlist + c)) media_playlist
                              EmptyString))])%list
             /\ play_index_txt w' = Holds (c + 1))
         /\ (isfile e (path_join (BASE_PATH cfg)
                         (nth (Z.to_nat (len media_playlist + c)) media_playlist
                              EmptyString)) 0 = true ->
             exists w', loop cfg e (S fuel) media_playlist w = Done tt w'))
  /\ (forall sp,
         play_index_txt w = Holds (- len media_playlist) ->
         media_playlist <> [] -> SCHEDULE_PATH cfg = Some sp ->
         isfile e (path_join (BASE_PATH cfg) (nth 0 media_playlist EmptyString)) 0
         = true ->
         exists w',
           loop cfg e (S fuel) media_playlist w = Raised IndexError w'
           /\ play_index_txt w' = Holds (- len media_playlist)
           /\ played (console w') = played (console w)
           /\ play_history_txt w'
              = play_history_txt
                  (final (record cfg (now e) (nth 0 media_playlist EmptyString) w))).
Proof.
  split; [|split; [|split]].
  - intros Hg. unfold loop, bind, read_index. now rewrite Hg.
  - intros c Hh Hc. unfold loop. unfold bind at 1. unfold read_index. rewrite Hh.
    unfold bind at 1.
    destruct (Z.ltb_spec c (len media_playlist)); [|unfold len in *; lia].
    unfold bind at 1. unfold getitem.
    destruct (Z.leb_spec 0 c); [unfold len in *; lia|].
    destruct (Z.leb_spec 0 (len media_playlist + c)); [lia|]. reflexivity.
  - intros c Hh Hc Hmode.
    pose proof (persisted_Holds w c Hh) as Hp.
    assert (Hf : getitem media_playlist c
                 = Some (nth (Z.to_nat (len media_playlist + c)) media_playlist
                             EmptyString)).
    { unfold getitem. destruct (Z.leb_spec 0 c); [lia|].
      destruct (Z.leb_spec 0 (len media_playlist + c)); [|lia].
      apply nth_error_nth'. unfold len in *. lia. }
    split.
    + intros w' Hloop.
      destruct (loop_done_shape cfg e fuel media_playlist w w' c Hp
                  ltac:(unfold len in *; lia) Hloop)
        as (f & t & Hf' & _ & _ & Hpl & _).
      rewrite Hf in Hf'. injection Hf' as <-. split; [exact Hpl|].
      rewrite (loop_done_index _ _ _ _ _ _ _ Hp Hloop).
      destruct (Z.ltb_spec c (len media_playlist)); [reflexivity|].
      unfold len in *; lia.
    + intros Hfile.
      apply loop_completes_any with c
        (nth (Z.to_nat (len media_playlist + c)) media_playlist EmptyString);
        try assumption; [unfold len in *; lia|].
      intros sp Hsp. destruct Hmode as [Hneq|Hnone]; [|congruence].
      unfold getitem. destruct (Z.leb_spec 0 (c - 1)); [lia|].
      destruct (Z.leb_spec 0 (len media_playlist + (c - 1))); [|lia].
      destruct (nth_error media_playlist (Z.to_nat (len media_playlist + (c - 1))))
        as [prev|] eqn:E; [now exists prev|].
      apply nth_error_None in E. unfold len in *. lia.
  - intros sp Hh Hne Hs Hfile. now apply loop_at_minus_len with sp.
Qed.

Lemma unusable_cursor_ends_the_turn_witness :
  loop Sample.shipped (Sample.calm 0) 1 Sample.abc (World Garbage None None [])
  = Raised ValueError (World Garbage None None [])
  /\ loop Sample.shipped (Sample.calm 0) 1 Sample.abc (Sample.at_cursor (-4))
     = Raised IndexError (Sample.at_cursor (-4))
  /\ (exists w',
         loop Sample.shipped (Sample.calm 0) 1 Sample.abc (Sample.at_cursor (-1))
         = Done tt w'
         /\ played (console w')
            = [player_command Sample.shipped "/media/videos/C.mp4"]
         /\ play_index_txt w' = Holds 0)
  /\ (exists w',
         loop Sample.shipped (Sample.calm 0) 1 Sample.abc (Sample.at_cursor (-3))
         = Raised IndexError w'
         /\ play_index_txt w' = Holds (-3)
         /\ played (console w') = []
         /\ play_history_txt w' = Some ("2026-01-01 00:00:00,A.mp4" ++ chr LF)).
Proof.
  split; [|split; [|split]].
  - apply (proj1 (unusable_cursor_ends_the_turn Sample.shipped (Sample.calm 0) 1
                    Sample.abc (World Garbage None None []))). reflexivity.
  - apply (proj1 (proj2 (unusable_cursor_ends_the_turn Sample.shipped (Sample.calm 0) 1
                           Sample.abc (Sample.at_cursor (-4)))) (-4)%Z);
      [reflexivity | unfold len; simpl; lia].
  - destruct (proj1 (proj2 (proj2 (unusable_cursor_ends_the_turn Sample.shipped
                                     (Sample.calm 0) 0 Sample.abc
                                     (Sample.at_cursor (-1)))))
                (-1)%Z) as [_ Htotal];
      [reflexivity | unfold len; simpl; lia | left; unfold len; simpl; lia |].
    destruct Htotal as (w' & Hloop); [reflexivity|].
    exists w'. split; [exact Hloop|].
    apply (proj1 (proj2 (proj2 (unusable_cursor_ends_the_turn Sample.shipped
                                  (Sample.calm 0) 1 Sample.abc
                                  (Sample.at_cursor (-1)))))
             (-1)%Z);
      [reflexivity | unfold len; simpl; lia | left; unfold len; simpl; lia
       | exact Hloop].
  - apply (proj2 (proj2 (proj2 (unusable_cursor_ends_the_turn Sample.shipped
                                  (Sample.calm 0) 0 Sample.abc
                                  (Sample.at_cursor (-3)))))
             "/var/www/schedule.html");
      [reflexivity | discriminate | reflexivity | reflexivity].
Defined.



Lemma cycle_go_In {A} (saved : list A) (n : nat) :
  forall cur x,
    incl cur saved -> In x (cycle_go saved cur n) -> In x saved.
Proof.
  induction n as [|n IH]; intros cur x Hcur Hx; [destruct Hx|].
  cbn [cycle_go] in Hx. destruct cur as [|y cur].
  - destruct saved as [|y saved']; [destruct Hx|].
    destruct Hx as [<-|Hx]; [now left|].
    apply (IH saved'); [|exact Hx]. intros z Hz. now right.
  - destruct Hx as [<-|Hx]; [apply Hcur; now left|].
    apply (IH cur); [|exact Hx]. intros z Hz. apply Hcur. now right.
Qed.

Lemma skipn_In {A} (n : nat) (l : list A) (x : A) : In x (skipn n l) -> In x l.
Proof.
  intros H. rewrite <- (firstn_skipn n l). apply in_or_app. now right.
Qed.

Lemma firstn_In {A} (n : nat) (l : list A) (x : A) : In x (firstn n l) -> In x l.
Proof.
  intros H. rewrite <- (firstn_skipn n l). apply in_or_app. now left.
Qed.

(** X20. Whatever the cursor and the configured length, the slice handed
    to [write_schedule] holds entries of the playlist only: the schedule
    never lists, and the probe is never run on, anything that is not in
    the playlist. *)
Theorem schedule_lists_playlist_entries_only cfg (media_playlist : list string)
        (play_index : Z) (filename : string) :
  In filename (media_copy cfg media_playlist play_index) ->
  In filename media_playlist.
Proof.
  unfold media_copy, slice_from, slice_to, islice_cycle.
  destruct (SCHEDULE_UPCOMING_LENGTH cfg
            <=? len (skipn (clamp media_playlist play_index) media_playlist))%Z.
  - intros H. apply firstn_In in H. now apply skipn_In in H.
  - intros H. apply in_app_or in H as [H|H].
    + now apply skipn_In in H.
    + apply cycle_go_In in H; [exact H | apply incl_refl].
Qed.

Lemma schedule_lists_playlist_entries_only_witness :
  In "A.mp4" Sample.abc.
Proof.
  apply (schedule_lists_playlist_entries_only (Sample.with_upcoming 4 Sample.shipped)
           Sample.abc 1 "A.mp4").
  right. right. now left.
Defined.
